(** * The eBird proxy: request-mediation pipeline

    Shallow embedding of [api/ebird-enhanced.js] (allowlist, in-memory cache,
    per-client fixed-window rate limiter) and of the plain proxy
    [api/ebird.js] (module [Basic]).  [api/ebird.ts] is the enhanced handler
    without the rate limiter and the cache and is not modelled separately.

    Conventions.
    - JavaScript strings are Rocq [string]s: the UTF-8 bytes of the text
      for the endpoint and what is derived from it, the raw (Latin-1) bytes
      for header values.  Every prefix and separator the code tests is
      ASCII, so [startsWith] and [split] on bytes and on UTF-16 code units
      agree.
    - JavaScript numbers that the code uses as integers (millisecond
      timestamps, counters, HTTP statuses) are [Z]; all of them stay far below
      2^53, where the double arithmetic of the source is exact.
    - The two process-wide [Map]s are [gmap string _]; the code never
      depends on their iteration order (the sweeps delete by a predicate).
    - What the runtime supplies during one invocation ([Date.now()] at each
      call site, [process.env], the upstream's answer, [Math.random()]) is
      an explicit [Env] record; one invocation runs to completion. *)

From stdpp Require Import gmap strings list fin_maps pretty.
From Stdlib Require Import Ascii ZArith QArith.
Local Open Scope string_scope.
Local Open Scope Z_scope.

(** ** Strings *)

(** [s.startsWith(p)] *)
Definition startsWith (s p : string) : bool := String.prefix p s.

(** [Boolean(s)] for a string: the empty string is falsy. *)
Definition truthy (s : string) : bool :=
  match s with EmptyString => false | String _ _ => true end.

(** Template-literal interpolation of an integer. *)
Definition toString (n : Z) : string := pretty n.

(** ** JSON values (response bodies, header values, upstream payloads) *)

Local Unset Elimination Schemes.
Inductive Json : Type :=
| JNull
| JBool (b : bool)
| JNum (n : Z)
| JStr (s : string)
| JArr (items : list Json)
| JObj (fields : list (string * Json)).
Local Set Elimination Schemes.

(** ** Configuration constants *)

Definition ALLOWED_PATHS : list string :=
  [ "/data/obs/";
    "/ref/hotspot/";
    "/ref/region/";
    "/product/spplist/";
    "/product/checklist/";
    "/product/top100/";
    "/ref/taxonomy/" ].

(** The object literal [CACHE_TTL], as [Object.entries] enumerates it:
    string keys in insertion order, the ['default'] key included. *)
Definition CACHE_TTL : list (string * Z) :=
  [ ("/data/obs/", 5 * 60 * 1000);
    ("/ref/hotspot/", 30 * 60 * 1000);
    ("/ref/region/", 60 * 60 * 1000);
    ("/product/spplist/", 60 * 60 * 1000);
    ("/ref/taxonomy/", 24 * 60 * 60 * 1000);
    ("default", 5 * 60 * 1000) ].

(** Property read [obj.key] on an object given by its entries. *)
Fixpoint prop_get (key : string) (entries : list (string * Z)) : option Z :=
  match entries with
  | [] => None
  | (k, v) :: rest => if String.eqb k key then Some v else prop_get key rest
  end.

(** [CACHE_TTL.default] *)
Definition CACHE_TTL_default : Z := default 0 (prop_get "default" CACHE_TTL).

Record RateLimitConfig : Type := {
  windowMs : Z;
  maxRequests : Z
}.

Definition RATE_LIMIT : RateLimitConfig :=
  {| windowMs := 60 * 1000; maxRequests := 100 |}.

(** ** TTL policy *)

(** The [for ... of Object.entries(...)] loop of [getCacheTTL]: the value of
    the first entry whose key is a prefix of the endpoint. *)
Fixpoint first_prefix_match (entries : list (string * Z)) (endpoint : string)
  : option Z :=
  match entries with
  | [] => None
  | (path, ttl) :: rest =>
      if startsWith endpoint path then Some ttl
      else first_prefix_match rest endpoint
  end.

Definition getCacheTTL (endpoint : string) : Z :=
  match first_prefix_match CACHE_TTL endpoint with
  | Some ttl => ttl
  | None => CACHE_TTL_default
  end.

Definition getCacheKey (endpoint : string) : string := "ebird:" +:+ endpoint.

(** ** Rate limiter *)

Record RateRecord : Type := {
  count : Z;
  resetTime : Z
}.

Record RateCheck : Type := {
  allowed : bool;
  remaining : Z;
  rc_resetTime : Z
}.

(** [checkRateLimit(ip)], reading the clock once ([now]) and threading the
    [rateLimits] map.  The configuration is a parameter so that the window
    arithmetic can be stated for any [maxRequests] and [windowMs]; the
    handler passes [RATE_LIMIT]. *)
Definition checkRateLimit (cfg : RateLimitConfig) (ip : string) (now : Z)
    (rateLimits : gmap string RateRecord) : RateCheck * gmap string RateRecord :=
  let record :=
    default {| count := 0; resetTime := now + windowMs cfg |} (rateLimits !! ip) in
  (* Reset window if expired *)
  let record :=
    if resetTime record <? now
    then {| count := 0; resetTime := now + windowMs cfg |}
    else record in
  let record := {| count := count record + 1; resetTime := resetTime record |} in
  ({| allowed := count record <=? maxRequests cfg;
      remaining := Z.max 0 (maxRequests cfg - count record);
      rc_resetTime := resetTime record |},
   <[ip := record]> rateLimits).

(** [cleanupRateLimits()] at clock reading [now]. *)
Definition cleanupRateLimits (now : Z) (rateLimits : gmap string RateRecord)
  : gmap string RateRecord :=
  filter (λ kv, ¬ (resetTime kv.2 + 60000 < now)) rateLimits.

(** ** Cache store *)

Record CacheEntry : Type := {
  data : Json;
  expiry : Z
}.

(** [cleanupCache()] at clock reading [now]. *)
Definition cleanupCache (now : Z) (cache : gmap string CacheEntry)
  : gmap string CacheEntry :=
  filter (λ kv, ¬ (expiry kv.2 < now)) cache.

(** ** [decodeURIComponent]

    The ECMAScript [Decode] operation with an empty preserve set, on UTF-8
    represented strings.  Every ['%'] must open an escape [%XX] with two
    hexadecimal digits; an escaped octet below 0x80 yields that character; an
    escaped leading octet must be followed by the right number of escaped
    continuation octets, together forming the well-formed UTF-8 encoding of
    one code point (whose UTF-8 bytes are then the decoded text).  Anything
    else throws [URIError], here [None]. *)

Definition hexDigit (c : ascii) : option Z :=
  let n := Z.of_N (N_of_ascii c) in
  if (48 <=? n) && (n <=? 57) then Some (n - 48)
  else if (65 <=? n) && (n <=? 70) then Some (n - 55)
  else if (97 <=? n) && (n <=? 102) then Some (n - 87)
  else None.

Inductive UriToken : Type :=
| Literal (c : ascii)
| Escaped (octet : Z).

(** Left-to-right scan: a ['%'] consumes itself and two hex digits. *)
Fixpoint uriTokens (s : string) : option (list UriToken) :=
  match s with
  | EmptyString => Some []
  | String c rest =>
      if Ascii.eqb c "%"%char then
        match rest with
        | String h1 (String h2 rest') =>
            match hexDigit h1, hexDigit h2, uriTokens rest' with
            | Some a, Some b, Some ts => Some (Escaped (16 * a + b) :: ts)
            | _, _, _ => None
            end
        | _ => None
        end
      else
        match uriTokens rest with
        | Some ts => Some (Literal c :: ts)
        | None => None
        end
  end.

Definition between (lo x hi : Z) : bool := (lo <=? x) && (x <=? hi).

Definition isContinuation (b : Z) : bool := between 128 b 191.

(** Well-formed two-, three- and four-octet UTF-8 sequences (no overlong
    forms, no surrogates, nothing above U+10FFFF). *)
Definition wellFormed2 (b0 b1 : Z) : bool :=
  between 194 b0 223 && isContinuation b1.

Definition wellFormed3 (b0 b1 b2 : Z) : bool :=
  ((b0 =? 224) && between 160 b1 191
   || between 225 b0 236 && isContinuation b1
   || (b0 =? 237) && between 128 b1 159
   || between 238 b0 239 && isContinuation b1)
  && isContinuation b2.

Definition wellFormed4 (b0 b1 b2 b3 : Z) : bool :=
  ((b0 =? 240) && between 144 b1 191
   || between 241 b0 243 && isContinuation b1
   || (b0 =? 244) && between 128 b1 143)
  && isContinuation b2 && isContinuation b3.

Definition byteChar (b : Z) : ascii := ascii_of_N (Z.to_N b).

Fixpoint decodeTokens (ts : list UriToken) : option string :=
  match ts with
  | [] => Some ""
  | Literal c :: rest => String c <$> decodeTokens rest
  | Escaped b0 :: rest =>
      if b0 <? 128 then String (byteChar b0) <$> decodeTokens rest
      else if between 192 b0 223 then
        match rest with
        | Escaped b1 :: rest1 =>
            if wellFormed2 b0 b1
            then (λ r, String (byteChar b0) (String (byteChar b1) r))
                   <$> decodeTokens rest1
            else None
        | _ => None
        end
      else if between 224 b0 239 then
        match rest with
        | Escaped b1 :: Escaped b2 :: rest2 =>
            if wellFormed3 b0 b1 b2
            then (λ r, String (byteChar b0) (String (byteChar b1)
                         (String (byteChar b2) r)))
                   <$> decodeTokens rest2
            else None
        | _ => None
        end
      else if between 240 b0 247 then
        match rest with
        | Escaped b1 :: Escaped b2 :: Escaped b3 :: rest3 =>
            if wellFormed4 b0 b1 b2 b3
            then (λ r, String (byteChar b0) (String (byteChar b1)
                         (String (byteChar b2) (String (byteChar b3) r))))
                   <$> decodeTokens rest3
            else None
        | _ => None
        end
      else None
  end.

Definition decodeURIComponent (s : string) : option string :=
  uriTokens s ≫= decodeTokens.

(** ** Client key *)

(** [s.split(',')[0]]: the text before the first comma. *)
Fixpoint splitFirst (s : string) : string :=
  match s with
  | EmptyString => EmptyString
  | String c rest =>
      if Ascii.eqb c ","%char then EmptyString else String c (splitFirst rest)
  end.

(** White space that [trim] strips, among the characters a header value can
    hold (Node decodes header bytes as Latin-1): TAB, LF, VT, FF, CR, SP and
    NBSP. *)
Definition isWhiteSpace (c : ascii) : bool :=
  let n := Z.of_N (N_of_ascii c) in
  between 9 n 13 || (n =? 32) || (n =? 160).

Fixpoint trimStart (s : string) : string :=
  match s with
  | EmptyString => EmptyString
  | String c rest => if isWhiteSpace c then trimStart rest else s
  end.

Fixpoint trimEnd (s : string) : string :=
  match s with
  | EmptyString => EmptyString
  | String c rest =>
      match trimEnd rest with
      | EmptyString => if isWhiteSpace c then EmptyString else String c EmptyString
      | rest' => String c rest'
      end
  end.

Definition trim (s : string) : string := trimEnd (trimStart s).

(** ** Requests, the runtime environment, responses *)

(** A value of [req.query]: absent, one string, or an array of strings when
    the parameter is repeated. *)
Inductive QueryValue : Type :=
| QUndefined
| QString (s : string)
| QArray (items : list string).

Record Request : Type := {
  method : string;
  req_headers : gmap string string;
  query_endpoint : QueryValue
}.

(** What a [catch] clause receives: an [Error] with its message, or any
    other thrown value. *)
Inductive Thrown : Type :=
| ThrownError (message : string)
| ThrownOther.

Inductive Completion (A : Type) : Type :=
| Returned (a : A)
| Threw (t : Thrown).
Arguments Returned {A} a.
Arguments Threw {A} t.

(** The upstream's [Response]: its status, and what [text()] and [json()]
    would settle to (the handler awaits exactly one of them). *)
Record UpstreamResponse : Type := {
  up_status : Z;
  up_text : Completion string;
  up_json : Completion Json
}.

(** [response.ok] *)
Definition ok (r : UpstreamResponse) : bool := between 200 (up_status r) 299.

(** One invocation's view of the outside world.  Each [Date.now()] call
    site has its own reading. *)
Record Env : Type := {
  EBIRD_API_KEY : option string;           (* process.env.EBIRD_API_KEY *)
  now_checkRateLimit : Z;                  (* Date.now() in checkRateLimit *)
  now_retryAfter : Z;                      (* Date.now() in the 429 body *)
  now_cacheCheck : Z;                      (* Date.now() in the hit test *)
  now_cacheStore : Z;                      (* Date.now() in cache.set *)
  now_cleanupCache : Z;                    (* Date.now() in cleanupCache *)
  now_cleanupRateLimits : Z;               (* Date.now() in cleanupRateLimits *)
  fetch : string → string → Completion UpstreamResponse;
                                           (* await fetch(url, {X-eBirdApiToken}) *)
  random : Q                               (* Math.random() *)
}.

(** The process-wide state: the two module-level [Map]s. *)
Record Store : Type := {
  cache : gmap string CacheEntry;
  rateLimits : gmap string RateRecord
}.

(** Cold start. *)
Definition emptyStore : Store := {| cache := ∅; rateLimits := ∅ |}.

Record Response : Type := {
  status : Z;
  headers : gmap string Json;
  body : option Json
}.

(** The result of one invocation: the response sent, the upstream calls
    issued (URL and token, in order), and the state left behind. *)
Record Outcome : Type := {
  response : Response;
  upstreamCalls : list (string * string);
  store : Store
}.

(** [Math.ceil(a / b)] for integers [a] and positive [b]. *)
Definition ceilDiv (a b : Z) : Z := - ((- a) / b).

(** [req.headers['x-forwarded-for']?.split(',')[0]?.trim()
     || req.headers['x-real-ip'] || 'unknown'] *)
Definition clientIPOf (hs : gmap string string) : string :=
  let forwarded :=
    match hs !! "x-forwarded-for" with
    | Some v => trim (splitFirst v)
    | None => ""
    end in
  if truthy forwarded then forwarded
  else
    match hs !! "x-real-ip" with
    | Some v => if truthy v then v else "unknown"
    | None => "unknown"
    end.

Definition corsHeaders : gmap string Json :=
  <["Access-Control-Allow-Headers" := JStr "Content-Type"]>
    (<["Access-Control-Allow-Methods" := JStr "GET, OPTIONS"]>
       (<["Access-Control-Allow-Origin" := JStr "*"]> ∅)).

(** The three [X-RateLimit-*] headers set after the rate check. *)
Definition rateLimitHeaders (rateCheck : RateCheck) (hs : gmap string Json)
  : gmap string Json :=
  let hs := <["X-RateLimit-Limit" := JNum (maxRequests RATE_LIMIT)]> hs in
  let hs := <["X-RateLimit-Remaining" := JNum (remaining rateCheck)]> hs in
  <["X-RateLimit-Reset" := JNum (ceilDiv (rc_resetTime rateCheck) 1000)]> hs.

(** [ALLOWED_PATHS.some(path => decodedEndpoint.startsWith(path))] *)
Definition isAllowed (decodedEndpoint : string) : bool :=
  existsb (startsWith decodedEndpoint) ALLOWED_PATHS.

(** [error instanceof Error ? error.message : 'Unknown error'] *)
Definition errorMessage (t : Thrown) : string :=
  match t with
  | ThrownError m => m
  | ThrownOther => "Unknown error"
  end.

(** The [catch] clause of the proxy block. *)
Definition proxyError (hs : gmap string Json) (t : Thrown) : Response :=
  {| status := 500;
     headers := hs;
     body := Some (JObj [("error", JStr "Failed to fetch from eBird");
                         ("message", JStr (errorMessage t))]) |}.

(** [cachedEntry && Date.now() < cachedEntry.expiry]: the entry served, if
    any. *)
Definition cacheHit (cache : gmap string CacheEntry) (cacheKey : string)
    (now : Z) : option CacheEntry :=
  match cache !! cacheKey with
  | Some cachedEntry => if now <? expiry cachedEntry then Some cachedEntry else None
  | None => None
  end.

(** [Math.random() < 0.01], the threshold read as the rational 1/100. *)
Definition sweepDue (env : Env) : bool := negb (Qle_bool (1 # 100) (random env)).

(** The [try] block after a cache miss: fetch, then either pass the
    upstream's error through or store the payload and answer with it. *)
Definition proxyUpstream (env : Env) (hs : gmap string Json)
    (decodedEndpoint cacheKey apiKey : string) (s : Store) : Outcome :=
  let ebirdUrl := "https://api.ebird.org/v2" +:+ decodedEndpoint in
  let calls := [(ebirdUrl, apiKey)] in
  match fetch env ebirdUrl apiKey with
  | Threw t => {| response := proxyError hs t; upstreamCalls := calls; store := s |}
  | Returned upstream =>
      if negb (ok upstream) then
        match up_text upstream with
        | Threw t =>
            {| response := proxyError hs t; upstreamCalls := calls; store := s |}
        | Returned errorText =>
            (* Don't cache errors, but provide helpful response *)
            {| response :=
                 {| status := up_status upstream;
                    headers := hs;
                    body := Some (JObj
                      [("error", JStr ("eBird API error: " +:+ toString (up_status upstream)));
                       ("details", JStr errorText)]) |};
               upstreamCalls := calls;
               store := s |}
        end
      else
        match up_json upstream with
        | Threw t =>
            {| response := proxyError hs t; upstreamCalls := calls; store := s |}
        | Returned payload =>
            (* Store in cache *)
            let ttl := getCacheTTL decodedEndpoint in
            let cache1 :=
              <[cacheKey := {| data := payload; expiry := now_cacheStore env + ttl |}]>
                (cache s) in
            (* Periodic cleanup (1% chance per request) *)
            let s1 :=
              if sweepDue env
              then {| cache := cleanupCache (now_cleanupCache env) cache1;
                      rateLimits :=
                        cleanupRateLimits (now_cleanupRateLimits env) (rateLimits s) |}
              else {| cache := cache1; rateLimits := rateLimits s |} in
            let maxAge := ttl / 1000 in
            let hs :=
              <["Cache-Control" :=
                  JStr ("s-maxage=" +:+ toString maxAge +:+
                        ", stale-while-revalidate=" +:+ toString (maxAge * 2))]> hs in
            let hs := <["X-Cache" := JStr "MISS"]> hs in
            {| response := {| status := 200; headers := hs; body := Some payload |};
               upstreamCalls := calls;
               store := s1 |}
        end
  end.

(** [return res.status(st).json(b)] (or [.end()]) before any upstream call. *)
Definition reply (st : Z) (hs : gmap string Json) (b : option Json) (s : Store)
  : Outcome :=
  {| response := {| status := st; headers := hs; body := b |};
     upstreamCalls := [];
     store := s |}.

(** The exported handler of [ebird-enhanced.js]. *)
Definition handler (req : Request) (env : Env) (s : Store) : Outcome :=
  let hs := corsHeaders in
  (* Handle preflight *)
  if String.eqb (method req) "OPTIONS" then reply 200 hs None s
  (* Only GET allowed *)
  else if negb (String.eqb (method req) "GET") then
    reply 405 hs (Some (JObj [("error", JStr "Method not allowed")])) s
  else
    (* Get client IP for rate limiting *)
    let clientIP := clientIPOf (req_headers req) in
    (* Check rate limit *)
    let (rateCheck, limits) :=
      checkRateLimit RATE_LIMIT clientIP (now_checkRateLimit env) (rateLimits s) in
    let s := {| cache := cache s; rateLimits := limits |} in
    let hs := rateLimitHeaders rateCheck hs in
    if negb (allowed rateCheck) then
      reply 429 hs
        (Some (JObj [("error", JStr "Rate limit exceeded");
                     ("retryAfter",
                      JNum (ceilDiv (rc_resetTime rateCheck - now_retryAfter env) 1000))]))
        s
    else
      (* Get endpoint from query string *)
      match query_endpoint req with
      | QString (String _ _ as endpoint) =>
          (* Get API key from environment variable *)
          match EBIRD_API_KEY env with
          | Some (String _ _ as apiKey) =>
              (* Decode the endpoint *)
              match decodeURIComponent endpoint with
              | None =>
                  reply 400 hs (Some (JObj [("error", JStr "Invalid endpoint encoding")])) s
              | Some decodedEndpoint =>
                  (* Security: Only allow certain eBird API paths *)
                  if negb (isAllowed decodedEndpoint) then
                    reply 403 hs
                      (Some (JObj [("error", JStr "Endpoint not allowed");
                                   ("allowed", JArr (JStr <$> ALLOWED_PATHS))]))
                      s
                  else
                    (* Check cache first *)
                    let cacheKey := getCacheKey decodedEndpoint in
                    match cacheHit (cache s) cacheKey (now_cacheCheck env) with
                    | Some cachedEntry =>
                        let hs := <["X-Cache" := JStr "HIT"]> hs in
                        let hs :=
                          <["Cache-Control" :=
                              JStr "s-maxage=60, stale-while-revalidate=300"]> hs in
                        reply 200 hs (Some (data cachedEntry)) s
                    | None =>
                        (* Cache miss - fetch from eBird *)
                        proxyUpstream env hs decodedEndpoint cacheKey apiKey s
                    end
              end
          | _ =>
              reply 500 hs
                (Some (JObj [("error", JStr "Server configuration error");
                             ("hint", JStr "EBIRD_API_KEY environment variable is not set")]))
                s
          end
      | _ =>
          reply 400 hs
            (Some (JObj [("error", JStr "Missing endpoint parameter");
                         ("example", JStr "/api/ebird?endpoint=/data/obs/US-MA/recent")]))
            s
      end.

(** ** The plain proxy, [api/ebird.js] *)

Module Basic.

(** [String(endpoint)], which [decodeURIComponent] applies to its
    argument: an array is joined with commas. *)
Definition queryToString (q : QueryValue) : string :=
  match q with
  | QUndefined => "undefined"
  | QString s => s
  | QArray items => String.concat "," items
  end.

(** [Boolean(endpoint)]: arrays are objects, hence truthy. *)
Definition queryTruthy (q : QueryValue) : bool :=
  match q with
  | QUndefined => false
  | QString s => truthy s
  | QArray _ => true
  end.

(** The [catch] clause: [error.message] is absent from the body when the
    thrown value is not an [Error]. *)
Definition proxyError (hs : gmap string Json) (t : Thrown) : Response :=
  {| status := 500;
     headers := hs;
     body := Some (JObj (("error", JStr "Failed to fetch from eBird API") ::
                         match t with
                         | ThrownError m => [("message", JStr m)]
                         | ThrownOther => []
                         end)) |}.

Definition allowedPaths : list string :=
  [ "/data/obs/";
    "/ref/hotspot/";
    "/ref/region/";
    "/product/spplist/";
    "/product/checklist/";
    "/product/top100/";
    "/ref/taxonomy/" ].

Definition handler (req : Request) (env : Env) : Response * list (string * string) :=
  let hs := corsHeaders in
  if String.eqb (method req) "OPTIONS" then
    ({| status := 200; headers := hs; body := None |}, [])
  else if negb (String.eqb (method req) "GET") then
    ({| status := 405; headers := hs;
        body := Some (JObj [("error", JStr "Method not allowed")]) |}, [])
  else if negb (queryTruthy (query_endpoint req)) then
    ({| status := 400; headers := hs;
        body := Some (JObj
          [("error", JStr "Missing endpoint parameter");
           ("usage", JStr "/api/ebird?endpoint=/data/obs/geo/recent?lat=42&lng=-72")]) |},
     [])
  else
    match EBIRD_API_KEY env with
    | Some (String _ _ as apiKey) =>
        match decodeURIComponent (queryToString (query_endpoint req)) with
        | None =>
            ({| status := 400; headers := hs;
                body := Some (JObj [("error", JStr "Invalid endpoint encoding")]) |}, [])
        | Some decodedEndpoint =>
            if negb (existsb (startsWith decodedEndpoint) allowedPaths) then
              ({| status := 403; headers := hs;
                  body := Some (JObj [("error", JStr "Endpoint not allowed");
                                      ("allowedPaths", JArr (JStr <$> allowedPaths))]) |},
               [])
            else
              let ebirdUrl := "https://api.ebird.org/v2" +:+ decodedEndpoint in
              let calls := [(ebirdUrl, apiKey)] in
              match fetch env ebirdUrl apiKey with
              | Threw t => (proxyError hs t, calls)
              | Returned upstream =>
                  if negb (ok upstream) then
                    match up_text upstream with
                    | Threw t => (proxyError hs t, calls)
                    | Returned errorText =>
                        ({| status := up_status upstream; headers := hs;
                            body := Some (JObj
                              [("error", JStr ("eBird API error: " +:+
                                               toString (up_status upstream)));
                               ("details", JStr errorText)]) |}, calls)
                    end
                  else
                    match up_json upstream with
                    | Threw t => (proxyError hs t, calls)
                    | Returned payload =>
                        ({| status := 200;
                            headers :=
                              <["Cache-Control" :=
                                  JStr "s-maxage=300, stale-while-revalidate"]> hs;
                            body := Some payload |}, calls)
                    end
              end
        end
    | _ =>
        ({| status := 500; headers := hs;
            body := Some (JObj [("error", JStr "Server configuration error")]) |}, [])
    end.

End Basic.

(** ** Vocabulary of the statements *)

(** *** TTL policy as the specification words it *)

Definition minutes (m : Z) : Z := m * 60 * 1000.

(** The fixed ordered table of (prefix, duration) pairs: observations,
    hotspots, regions, species lists, taxonomy. *)
Definition ttlTable : list (string * Z) :=
  [ ("/data/obs/", minutes 5);
    ("/ref/hotspot/", minutes 30);
    ("/ref/region/", minutes 60);
    ("/product/spplist/", minutes 60);
    ("/ref/taxonomy/", minutes (24 * 60)) ].

Definition defaultTtl : Z := minutes 5.

(** [ttlFor]: the duration of the first table row whose prefix the path
    starts with, the default when there is none. *)
Definition ttlFor (normalizedPath : string) : Z :=
  match find (λ row, startsWith normalizedPath row.1) ttlTable with
  | Some row => row.2
  | None => defaultTtl
  end.

(** *** Sequences of rate-limiter calls *)

(** A call is a client key and the clock reading of that call. *)
Definition Call : Type := string * Z.

(** The limiter state after a sequence of calls. *)
Fixpoint storeAfter (cfg : RateLimitConfig) (calls : list Call)
    (limits : gmap string RateRecord) : gmap string RateRecord :=
  match calls with
  | [] => limits
  | (ip, now) :: rest => storeAfter cfg rest (checkRateLimit cfg ip now limits).2
  end.

(** What the calls of client [who] returned, in order. *)
Fixpoint resultsFor (cfg : RateLimitConfig) (who : string) (calls : list Call)
    (limits : gmap string RateRecord) : list RateCheck :=
  match calls with
  | [] => []
  | (ip, now) :: rest =>
      let out := checkRateLimit cfg ip now limits in
      if decide (ip = who)
      then out.1 :: resultsFor cfg who rest out.2
      else resultsFor cfg who rest out.2
  end.

(** The clock readings of the calls of client [who]. *)
Fixpoint timesOf (who : string) (calls : list Call) : list Z :=
  match calls with
  | [] => []
  | (ip, now) :: rest =>
      if decide (ip = who) then now :: timesOf who rest else timesOf who rest
  end.

(** Client [who] opens a new window by calling at [now]: it has no record,
    or its record's window has elapsed. *)
Definition freshAt (limits : gmap string RateRecord) (who : string) (now : Z) : Prop :=
  match limits !! who with
  | None => True
  | Some record => resetTime record < now
  end.

(** *** Stages of the pipeline *)

(** The client key of a request, the answer of the rate limiter to it, and
    the state once the request has been counted. *)
Definition clientKey (req : Request) : string := clientIPOf (req_headers req).

Definition rateCheckOf (req : Request) (env : Env) (s : Store) : RateCheck :=
  (checkRateLimit RATE_LIMIT (clientKey req) (now_checkRateLimit env) (rateLimits s)).1.

Definition counted (req : Request) (env : Env) (s : Store) : Store :=
  {| cache := cache s;
     rateLimits :=
       (checkRateLimit RATE_LIMIT (clientKey req) (now_checkRateLimit env)
          (rateLimits s)).2 |}.

(** The headers every response carries once the rate check has run. *)
Definition baseHeaders (req : Request) (env : Env) (s : Store) : gmap string Json :=
  rateLimitHeaders (rateCheckOf req env s) corsHeaders.

(** The request gets as far as decoding its endpoint: it is a GET, the rate
    limiter admits it, the endpoint parameter is a non-empty string and the
    server credential is configured. *)
Definition reachesValidator (req : Request) (env : Env) (s : Store)
    (endpoint apiKey : string) : Prop :=
  method req = "GET"
  ∧ allowed (rateCheckOf req env s) = true
  ∧ query_endpoint req = QString endpoint ∧ endpoint ≠ ""
  ∧ EBIRD_API_KEY env = Some apiKey ∧ apiKey ≠ "".

(** The request gets as far as the cache lookup for the decoded endpoint. *)
Definition reachesCache (req : Request) (env : Env) (s : Store)
    (decodedEndpoint apiKey : string) : Prop :=
  ∃ endpoint,
    reachesValidator req env s endpoint apiKey
    ∧ decodeURIComponent endpoint = Some decodedEndpoint
    ∧ isAllowed decodedEndpoint = true.

(** The two rejections of the allowlist validator. *)
Definition invalidEncoding (r : Response) : Prop :=
  status r = 400 ∧ body r = Some (JObj [("error", JStr "Invalid endpoint encoding")]).

Definition pathNotAllowed (r : Response) : Prop :=
  status r = 403
  ∧ body r = Some (JObj [("error", JStr "Endpoint not allowed");
                         ("allowed", JArr (JStr <$> ALLOWED_PATHS))]).

(** The response that serves a cache entry. *)
Definition hitResponse (hs : gmap string Json) (entry : CacheEntry) : Response :=
  {| status := 200;
     headers := <["Cache-Control" := JStr "s-maxage=60, stale-while-revalidate=300"]>
                  (<["X-Cache" := JStr "HIT"]> hs);
     body := Some (data entry) |}.

(** The URL the proxy block requests for a decoded endpoint. *)
Definition upstreamUrl (decodedEndpoint : string) : string :=
  "https://api.ebird.org/v2" +:+ decodedEndpoint.

(** The response that forwards an upstream error. *)
Definition passthrough (hs : gmap string Json) (upstreamStatus : Z) (errorText : string)
  : Response :=
  {| status := upstreamStatus;
     headers := hs;
     body := Some (JObj [("error", JStr ("eBird API error: " +:+ toString upstreamStatus));
                         ("details", JStr errorText)]) |}.

(** The state with one cache entry physically removed. *)
Definition evict (cacheKey : string) (s : Store) : Store :=
  {| cache := delete cacheKey (cache s); rateLimits := rateLimits s |}.

(** The rejection of the rate limiter, carrying [retryAfter]. *)
Definition rateLimited (r : Response) (retryAfter : Z) : Prop :=
  status r = 429
  ∧ body r = Some (JObj [("error", JStr "Rate limit exceeded");
                         ("retryAfter", JNum retryAfter)]).

(** *** Reachable states

    [reachable t s]: a cold-started process is in state [s] after handling
    some requests one after the other, the clock readings of its rate checks
    never going backwards, the last of them being [t]. *)
Inductive reachable : Z → Store → Prop :=
| reachable_cold (t : Z) : reachable t emptyStore
| reachable_handled (t : Z) (s : Store) (req : Request) (env : Env) :
    reachable t s →
    t ≤ now_checkRateLimit env →
    reachable (now_checkRateLimit env) (store (handler req env s)).

(** Every stored window ends at most one window length after [t]. *)
Definition windowsBounded (t : Z) (limits : gmap string RateRecord) : Prop :=
  ∀ ip record, limits !! ip = Some record → resetTime record ≤ t + windowMs RATE_LIMIT.

(** *** Sample inputs *)

(** A GET from one client address for one endpoint. *)
Definition getFrom (ip endpoint : string) : Request :=
  {| method := "GET";
     req_headers := {["x-forwarded-for" := ip]};
     query_endpoint := QString endpoint |}.

(** An environment whose clock stands at [t], with the credential set, the
    given upstream answer, and no sweep. *)
Definition atTime (t : Z) (answer : Completion UpstreamResponse) : Env :=
  {| EBIRD_API_KEY := Some "test-token";
     now_checkRateLimit := t;
     now_retryAfter := t;
     now_cacheCheck := t;
     now_cacheStore := t;
     now_cleanupCache := t;
     now_cleanupRateLimits := t;
     fetch := λ _ _, answer;
     random := 1 # 2 |}.

(** The same environment when [Math.random()] returns 0: the sweep runs. *)
Definition sweepingAt (t : Z) (answer : Completion UpstreamResponse) : Env :=
  {| EBIRD_API_KEY := Some "test-token";
     now_checkRateLimit := t;
     now_retryAfter := t;
     now_cacheCheck := t;
     now_cacheStore := t;
     now_cleanupCache := t;
     now_cleanupRateLimits := t;
     fetch := λ _ _, answer;
     random := 0 |}.

Definition upstreamOk (payload : Json) : Completion UpstreamResponse :=
  Returned {| up_status := 200;
              up_text := Returned "";
              up_json := Returned payload |}.

Definition upstreamFails (st : Z) (text : string) : Completion UpstreamResponse :=
  Returned {| up_status := st;
              up_text := Returned text;
              up_json := Threw (ThrownError "Unexpected token") |}.

Definition sightings : Json :=
  JArr [JObj [("speciesCode", JStr "amerob"); ("howMany", JNum 3)]].

(** The state after [n] requests of one client at clock reading 0. *)
Definition afterRequests (n : nat) : Store :=
  Nat.iter n
    (λ s, store (handler (getFrom "203.0.113.7" "/data/obs/US-MA/recent")
                   (atTime 0 (upstreamOk sightings)) s))
    emptyStore.


(** One call of another client, then 101 calls of one client at the same
    clock reading. *)
Definition burst : list Call :=
  ("198.51.100.2", 5) :: replicate 101 ("203.0.113.7", 1000).

(** ** The TypeScript proxy, [api/ebird.ts] *)

Module Typed.

Definition ALLOWED_PATHS : list string :=
  [ "/data/obs/";
    "/ref/hotspot/";
    "/ref/region/";
    "/product/spplist/";
    "/product/checklist/";
    "/product/top100/";
    "/ref/taxonomy/" ].

Definition handler (req : Request) (env : Env) : Response * list (string * string) :=
  let hs := corsHeaders in
  (* Handle preflight *)
  if String.eqb (method req) "OPTIONS" then
    ({| status := 200; headers := hs; body := None |}, [])
  (* Only GET allowed *)
  else if negb (String.eqb (method req) "GET") then
    ({| status := 405; headers := hs;
        body := Some (JObj [("error", JStr "Method not allowed")]) |}, [])
  else
    (* Get endpoint from query string *)
    match query_endpoint req with
    | QString (String _ _ as endpoint) =>
        (* Get API key from environment variable *)
        match EBIRD_API_KEY env with
        | Some (String _ _ as apiKey) =>
            (* Decode the endpoint *)
            match decodeURIComponent endpoint with
            | None =>
                ({| status := 400; headers := hs;
                    body := Some (JObj [("error", JStr "Invalid endpoint encoding")]) |}, [])
            | Some decodedEndpoint =>
                (* Security: Only allow certain eBird API paths *)
                if negb (existsb (startsWith decodedEndpoint) ALLOWED_PATHS) then
                  ({| status := 403; headers := hs;
                      body := Some (JObj [("error", JStr "Endpoint not allowed");
                                          ("allowed", JArr (JStr <$> ALLOWED_PATHS))]) |},
                   [])
                else
                  (* Build eBird URL *)
                  let ebirdUrl := "https://api.ebird.org/v2" +:+ decodedEndpoint in
                  let calls := [(ebirdUrl, apiKey)] in
                  match fetch env ebirdUrl apiKey with
                  | Threw t => (proxyError hs t, calls)
                  | Returned upstream =>
                      if negb (ok upstream) then
                        match up_text upstream with
                        | Threw t => (proxyError hs t, calls)
                        | Returned errorText =>
                            ({| status := up_status upstream; headers := hs;
                                body := Some (JObj
                                  [("error", JStr ("eBird API error: " +:+
                                                   toString (up_status upstream)));
                                   ("details", JStr errorText)]) |}, calls)
                        end
                      else
                        match up_json upstream with
                        | Threw t => (proxyError hs t, calls)
                        | Returned payload =>
                            (* Cache for 5 minutes *)
                            ({| status := 200;
                                headers :=
                                  <["Cache-Control" :=
                                      JStr "s-maxage=300, stale-while-revalidate"]> hs;
                                body := Some payload |}, calls)
                        end
                  end
            end
        | _ =>
            ({| status := 500; headers := hs;
                body := Some (JObj
                  [("error", JStr "Server configuration error");
                   ("hint", JStr "EBIRD_API_KEY environment variable is not set")]) |}, [])
        end
    | _ =>
        ({| status := 400; headers := hs;
            body := Some (JObj
              [("error", JStr "Missing endpoint parameter");
               ("example", JStr "/api/ebird?endpoint=/data/obs/US-MA/recent")]) |}, [])
    end.

End Typed.

(** ** Vocabulary of the further properties *)

(** The state after both sweeps have run, at the given clock readings. *)
Definition swept (cacheNow limitsNow : Z) (s : Store) : Store :=
  {| cache := cleanupCache cacheNow (cache s);
     rateLimits := cleanupRateLimits limitsNow (rateLimits s) |}.

(** The characters of a string. *)
Fixpoint chars (s : string) : list ascii :=
  match s with
  | EmptyString => []
  | String c rest => c :: chars rest
  end.

(** Every record of a limiter map has counted at least one request. *)
Definition countsPositive (limits : gmap string RateRecord) : Prop :=
  ∀ ip record, limits !! ip = Some record → 1 ≤ count record.

(** Every key of a cache map is the key of an allowed decoded endpoint. *)
Definition keysAllowed (c : gmap string CacheEntry) : Prop :=
  ∀ k entry, c !! k = Some entry →
    ∃ decoded, k = getCacheKey decoded ∧ isAllowed decoded = true.

(** The request carries a repeated [endpoint] parameter. *)
Definition isArrayQuery (q : QueryValue) : bool :=
  match q with QArray _ => true | _ => false end.

(** The three permissive CORS headers. *)
Definition corsPermissive (r : Response) : Prop :=
  headers r !! "Access-Control-Allow-Origin" = Some (JStr "*")
  ∧ headers r !! "Access-Control-Allow-Methods" = Some (JStr "GET, OPTIONS")
  ∧ headers r !! "Access-Control-Allow-Headers" = Some (JStr "Content-Type").

(** A string that is empty or starts with a character that is not white
    space. *)
Definition startsClean (s : string) : Prop :=
  match s with
  | EmptyString => True
  | String c _ => isWhiteSpace c = false
  end.


(** Requests handled one after the other, each with its own environment:
    the outcomes, in order. *)
Fixpoint serveAll (requests : list (Request * Env)) (s : Store) : list Outcome :=
  match requests with
  | [] => []
  | (req, env) :: rest =>
      let out := handler req env s in
      out :: serveAll rest (store out)
  end.

(** A GET of client [who] whose rate check reads the clock within the
    window opened at [t1] and whose sweep, if any, runs less than a minute
    after that window's end. *)
Definition inWindow (who : string) (t1 : Z) (re : Request * Env) : Prop :=
  method re.1 = "GET"
  ∧ clientKey re.1 = who
  ∧ now_checkRateLimit re.2 ≤ t1 + windowMs RATE_LIMIT
  ∧ now_cleanupRateLimits re.2 ≤ t1 + windowMs RATE_LIMIT + 60000.

(** * Properties *)

(** ** The model on concrete inputs *)

Example decode_plain :
  decodeURIComponent "/data/obs/US-MA/recent" = Some "/data/obs/US-MA/recent".
Proof. reflexivity. Qed.

Example decode_escapes : decodeURIComponent "%2Fdata%2fobs%2F" = Some "/data/obs/".
Proof. reflexivity. Qed.

Example decode_two_octets :
  decodeURIComponent "caf%C3%A9"
  = Some ("caf" +:+ String (byteChar 195) (String (byteChar 169) "")).
Proof. reflexivity. Qed.

Example decode_truncated : decodeURIComponent "%E0%A4%A" = None.
Proof. reflexivity. Qed.

Example decode_lone_percent : decodeURIComponent "100%" = None.
Proof. reflexivity. Qed.

Example decode_overlong : decodeURIComponent "%C0%AF" = None.
Proof. reflexivity. Qed.

Example decode_surrogate : decodeURIComponent "%ED%A0%80" = None.
Proof. reflexivity. Qed.

Example decode_stray_continuation : decodeURIComponent "a%80" = None.
Proof. reflexivity. Qed.

Example clientIP_first_hop :
  clientIPOf {["x-forwarded-for" := " 203.0.113.7 , 10.0.0.1"]} = "203.0.113.7".
Proof. reflexivity. Qed.

Example clientIP_real_ip :
  clientIPOf {["x-forwarded-for" := " ,10.0.0.1"; "x-real-ip" := "198.51.100.2"]}
  = "198.51.100.2".
Proof. vm_compute. reflexivity. Qed.

Example clientIP_unknown : clientIPOf ∅ = "unknown".
Proof. reflexivity. Qed.

Example preflight :
  handler {| method := "OPTIONS"; req_headers := ∅; query_endpoint := QUndefined |}
    (atTime 0 (upstreamOk JNull)) emptyStore
  = reply 200 corsHeaders None emptyStore.
Proof. reflexivity. Qed.

Example post_rejected :
  status (response (handler {| method := "POST"; req_headers := ∅;
                               query_endpoint := QString "/data/obs/US-MA/recent" |}
                      (atTime 0 (upstreamOk JNull)) emptyStore)) = 405.
Proof. reflexivity. Qed.

Example repeated_parameter_rejected :
  status (response (handler {| method := "GET"; req_headers := ∅;
                               query_endpoint := QArray ["/data/obs/a"; "/data/obs/b"] |}
                      (atTime 0 (upstreamOk JNull)) emptyStore)) = 400.
Proof. vm_compute. reflexivity. Qed.

(** The end-to-end scenario: a miss that fetches and stores with the
    5-minute TTL, then a hit. *)
Example miss_then_hit :
  let first := handler (getFrom "203.0.113.7" "/data/obs/US-MA/recent")
                 (atTime 0 (upstreamOk sightings)) emptyStore in
  let second := handler (getFrom "203.0.113.7" "/data/obs/US-MA/recent")
                  (atTime 1000 (upstreamFails 500 "down")) (store first) in
  status (response first) = 200
  ∧ body (response first) = Some sightings
  ∧ headers (response first) !! "X-Cache" = Some (JStr "MISS")
  ∧ headers (response first) !! "Cache-Control"
    = Some (JStr "s-maxage=300, stale-while-revalidate=600")
  ∧ upstreamCalls first = [("https://api.ebird.org/v2/data/obs/US-MA/recent", "test-token")]
  ∧ cache (store first) !! "ebird:/data/obs/US-MA/recent"
    = Some {| data := sightings; expiry := 300000 |}
  ∧ status (response second) = 200
  ∧ body (response second) = Some sightings
  ∧ headers (response second) !! "X-Cache" = Some (JStr "HIT")
  ∧ upstreamCalls second = [].
Proof. vm_compute. repeat split. Qed.

(** The hundredth request of a window is the last one allowed, and already
    reports no remaining quota; the next one is rejected. *)
Example hundredth_and_next :
  let hundredth := handler (getFrom "203.0.113.7" "/data/obs/US-MA/recent")
                     (atTime 10 (upstreamOk sightings)) (afterRequests 99) in
  let next := handler (getFrom "203.0.113.7" "/data/obs/US-MA/recent")
                (atTime 20 (upstreamOk sightings)) (store hundredth) in
  status (response hundredth) = 200
  ∧ headers (response hundredth) !! "X-RateLimit-Remaining" = Some (JNum 0)
  ∧ status (response next) = 429
  ∧ headers (response next) !! "X-RateLimit-Remaining" = Some (JNum 0)
  ∧ body (response next) = Some (JObj [("error", JStr "Rate limit exceeded");
                                       ("retryAfter", JNum 60)]).
Proof. vm_compute. repeat split. Qed.

(** ** Strings *)

Lemma append_cons (c : ascii) (p r : string) :
  String c p +:+ r = String c (p +:+ r).
Proof. reflexivity. Qed.

Lemma startsWith_app (p s : string) :
  startsWith s p = true ↔ ∃ r, s = p +:+ r.
Proof.
  unfold startsWith. revert s.
  induction p as [|c p IH]; intros s; simpl.
  - destruct s; split; eauto.
  - destruct s as [|d s]; simpl.
    + split; [discriminate | intros [r Hr]; rewrite append_cons in Hr; discriminate].
    + destruct (ascii_dec c d) as [->|Hne].
      * rewrite IH. split; intros [r Hr]; exists r; rewrite append_cons in *; congruence.
      * split; [discriminate | intros [r Hr]; rewrite append_cons in Hr; congruence].
Qed.

(** ** TTL policy *)

(** C7. [getCacheTTL] returns the duration of the first row of the ordered
    table (observations 5 min, hotspots 30 min, regions 60 min, species
    lists 60 min, taxonomy 24 h) whose prefix the path starts with, and the
    5-minute default when no prefix matches: it computes exactly [ttlFor].
    The extra ['default'] key that the loop also visits carries the default
    duration, so a path starting with the text "default" changes nothing. *)
Theorem getCacheTTL_first_match (endpoint : string) :
  getCacheTTL endpoint = ttlFor endpoint
  ∧ (startsWith endpoint "/data/obs/" = true → getCacheTTL endpoint = minutes 5)
  ∧ (startsWith endpoint "/ref/hotspot/" = true → getCacheTTL endpoint = minutes 30)
  ∧ (startsWith endpoint "/ref/region/" = true → getCacheTTL endpoint = minutes 60)
  ∧ (startsWith endpoint "/product/spplist/" = true → getCacheTTL endpoint = minutes 60)
  ∧ (startsWith endpoint "/ref/taxonomy/" = true → getCacheTTL endpoint = minutes (24 * 60))
  ∧ (Forall (λ row, startsWith endpoint row.1 = false) ttlTable →
     getCacheTTL endpoint = minutes 5).
Proof.
  split.
  { unfold getCacheTTL, ttlFor. simpl.
    repeat (destruct (startsWith endpoint _); [reflexivity|]).
    reflexivity. }
  repeat split.
  1-5: intros [r ->]%startsWith_app; destruct r; reflexivity.
  intros H. unfold getCacheTTL.
  unfold ttlTable in H. rewrite !Forall_cons in H. simpl in H. destruct H as (H1 & H2 & H3 & H4 & H5 & _).
  simpl. rewrite H1, H2, H3, H4, H5.
  destruct (startsWith endpoint "default"); reflexivity.
Qed.

Lemma getCacheTTL_first_match_witness :
  getCacheTTL "/ref/hotspot/info/L99381" = minutes 30.
Proof.
  apply (getCacheTTL_first_match "/ref/hotspot/info/L99381"). reflexivity.
Defined.


(** ** Rate limiter *)

Section RateLimiter.
Variable cfg : RateLimitConfig.
Implicit Types (limits : gmap string RateRecord) (ip who : string) (now : Z).

Local Abbreviation N := (maxRequests cfg).
Local Abbreviation W := (windowMs cfg).

(** A call that opens a window: the counter restarts at one. *)
Lemma checkRateLimit_fresh limits ip now :
  freshAt limits ip now →
  checkRateLimit cfg ip now limits =
    ({| allowed := 1 <=? N; remaining := Z.max 0 (N - 1); rc_resetTime := now + W |},
     <[ip := {| count := 1; resetTime := now + W |}]> limits).
Proof.
  unfold freshAt, checkRateLimit. destruct (limits !! ip) as [record|]; simpl.
  - intros ->%Z.ltb_lt. reflexivity.
  - intros _. destruct (now + windowMs cfg <? now); reflexivity.
Qed.

(** A call inside the current window: the counter goes up by one. *)
Lemma checkRateLimit_in_window limits ip now record :
  limits !! ip = Some record →
  now ≤ resetTime record →
  checkRateLimit cfg ip now limits =
    ({| allowed := count record + 1 <=? N;
        remaining := Z.max 0 (N - (count record + 1));
        rc_resetTime := resetTime record |},
     <[ip := {| count := count record + 1; resetTime := resetTime record |}]> limits).
Proof.
  intros Hrec Hnow. unfold checkRateLimit. rewrite Hrec. simpl.
  apply Z.ltb_ge in Hnow. rewrite Hnow. reflexivity.
Qed.

(** Only the caller's record is touched. *)
Lemma checkRateLimit_other limits ip who now :
  ip ≠ who → (checkRateLimit cfg ip now limits).2 !! who = limits !! who.
Proof. intros Hne. unfold checkRateLimit. simpl. by rewrite lookup_insert_ne. Qed.

(** Every call is one of the two cases above. *)
Lemma checkRateLimit_cases limits ip now :
  freshAt limits ip now
  ∨ ∃ record, limits !! ip = Some record ∧ now ≤ resetTime record.
Proof.
  unfold freshAt. destruct (limits !! ip) as [record|]; [|by left].
  destruct (Z.lt_ge_cases (resetTime record) now); [by left|].
  right. eauto.
Qed.

(** The caller's record always exists afterwards, and the result is read
    off it. *)
Lemma checkRateLimit_record limits ip now :
  ∃ record,
    (checkRateLimit cfg ip now limits).2 = <[ip := record]> limits
    ∧ allowed (checkRateLimit cfg ip now limits).1 = (count record <=? N)
    ∧ remaining (checkRateLimit cfg ip now limits).1 = Z.max 0 (N - count record)
    ∧ rc_resetTime (checkRateLimit cfg ip now limits).1 = resetTime record.
Proof.
  destruct (checkRateLimit_cases limits ip now) as [Hf|(record & Hrec & Hnow)].
  - rewrite (checkRateLimit_fresh _ _ _ Hf). simpl. eexists; repeat split; reflexivity.
  - rewrite (checkRateLimit_in_window _ _ _ _ Hrec Hnow). simpl.
    eexists; repeat split; reflexivity.
Qed.

(** C10. The [remaining] value of every call is [max(0, maxRequests -
    count)] for the count just stored, hence never negative.  Every
    rejected call reports 0, and so does the last allowed call of a
    window (the one that brings the count to [maxRequests]): an allowed
    call reports 0 exactly when it is that one, so [remaining = 0] alone
    does not mean rejection. *)
Theorem checkRateLimit_remaining_clamped limits ip now :
  ∃ record,
    (checkRateLimit cfg ip now limits).2 !! ip = Some record
    ∧ remaining (checkRateLimit cfg ip now limits).1 = Z.max 0 (N - count record)
    ∧ 0 ≤ remaining (checkRateLimit cfg ip now limits).1
    ∧ (allowed (checkRateLimit cfg ip now limits).1 = false ↔ N < count record)
    ∧ (allowed (checkRateLimit cfg ip now limits).1 = false →
       remaining (checkRateLimit cfg ip now limits).1 = 0)
    ∧ (allowed (checkRateLimit cfg ip now limits).1 = true
       ∧ remaining (checkRateLimit cfg ip now limits).1 = 0
       ↔ count record = N).
Proof.
  destruct (checkRateLimit_record limits ip now) as (record & Hs & Ha & Hr & _).
  exists record. rewrite Hs, Ha, Hr, lookup_insert_eq.
  rewrite Z.leb_le, Z.leb_gt. repeat split; try lia.
Qed.

(** While the window opened at [t1] is running, the [k]-th call of the
    client is answered from the count [k]. *)
Lemma resultsFor_running who calls limits k t1 :
  limits !! who = Some {| count := k; resetTime := t1 + W |} →
  Forall (λ t, t ≤ t1 + W) (timesOf who calls) →
  (∀ i r, resultsFor cfg who calls limits !! i = Some r →
     allowed r = (k + Z.of_nat i + 1 <=? N)
     ∧ remaining r = Z.max 0 (N - (k + Z.of_nat i + 1))
     ∧ rc_resetTime r = t1 + W)
  ∧ storeAfter cfg calls limits !! who =
      Some {| count := k + Z.of_nat (length (timesOf who calls));
              resetTime := t1 + W |}
  ∧ length (resultsFor cfg who calls limits) = length (timesOf who calls).
Proof.
  revert limits k. induction calls as [|[ip now] calls IH]; intros limits k Hrec Hin.
  - simpl. split; [intros i r; by rewrite lookup_nil|].
    split; [|done]. rewrite Hrec. do 2 f_equal. lia.
  - cbn [resultsFor storeAfter timesOf] in *.
    destruct (decide (ip = who)) as [->|Hne].
    + apply Forall_cons in Hin as [Hnow Hin].
      rewrite (checkRateLimit_in_window _ _ _ _ Hrec Hnow). cbn [fst snd count resetTime].
      destruct (IH (<[who:={| count := k + 1; resetTime := t1 + W |}]> limits) (k + 1))
        as (Hres & Hst & Hlen); [apply lookup_insert_eq | done |].
      split; [|split].
      * intros [|i] r Hi; simpl in Hi.
        -- injection Hi as <-. simpl. repeat split; f_equal; lia.
        -- destruct (Hres i r Hi) as (-> & -> & ->).
           repeat split; f_equal; lia.
      * rewrite Hst. do 2 f_equal. simpl. lia.
      * simpl. by rewrite Hlen.
    + apply IH; [|done]. by rewrite checkRateLimit_other.
Qed.

(** C2. A client opens a window with a call at [t1] (it has no record, or
    its previous window has elapsed) and calls again at readings that are
    all within [windowMs] of [t1], interleaved at will with calls of other
    clients.  Its [k]-th call is allowed exactly when [k <= maxRequests],
    with [remaining = max(0, maxRequests - k)]: the counter is incremented
    before the comparison, so the [(maxRequests+1)]-th call is rejected.
    Rejected calls are counted too: the stored count is the number of
    calls made.  The first call after the window has elapsed
    ([t1 + windowMs < t]) is allowed with [remaining = maxRequests - 1]. *)
Theorem checkRateLimit_window who calls limits t1 later :
  1 ≤ N →
  freshAt limits who t1 →
  timesOf who calls = t1 :: later →
  Forall (λ t, t ≤ t1 + W) later →
  length (resultsFor cfg who calls limits) = S (length later)
  ∧ (∀ i r, resultsFor cfg who calls limits !! i = Some r →
       allowed r = (Z.of_nat i + 1 <=? N)
       ∧ remaining r = Z.max 0 (N - (Z.of_nat i + 1)))
  ∧ (∀ r, resultsFor cfg who calls limits !! Z.to_nat N = Some r →
       allowed r = false)
  ∧ storeAfter cfg calls limits !! who =
      Some {| count := Z.of_nat (S (length later)); resetTime := t1 + W |}
  ∧ (∀ t, t1 + W < t →
       allowed (checkRateLimit cfg who t (storeAfter cfg calls limits)).1 = true
       ∧ remaining (checkRateLimit cfg who t (storeAfter cfg calls limits)).1 = N - 1).
Proof.
  intros HN. revert limits.
  induction calls as [|[ip now] calls IH]; intros limits Hfresh Htimes Hlater;
    [discriminate|].
  cbn [resultsFor storeAfter timesOf] in *.
  destruct (decide (ip = who)) as [->|Hne].
  - injection Htimes as -> Htimes.
    rewrite (checkRateLimit_fresh _ _ _ Hfresh). cbn [fst snd].
    destruct (resultsFor_running who calls
                (<[who:={| count := 1; resetTime := t1 + W |}]> limits) 1 t1)
      as (Hres & Hst & Hlen); [apply lookup_insert_eq | by rewrite Htimes |].
    assert (Hall : ∀ i r,
      ({| allowed := 1 <=? N; remaining := Z.max 0 (N - 1); rc_resetTime := t1 + W |}
         :: resultsFor cfg who calls
              (<[who:={| count := 1; resetTime := t1 + W |}]> limits)) !! i = Some r →
      allowed r = (Z.of_nat i + 1 <=? N)
      ∧ remaining r = Z.max 0 (N - (Z.of_nat i + 1))).
    { intros [|i] r Hi; simpl in Hi.
      - injection Hi as <-. simpl. split; f_equal; lia.
      - destruct (Hres i r Hi) as (-> & -> & _). split; f_equal; lia. }
    split; [cbn [length]; by rewrite Hlen, Htimes|]. split; [exact Hall|].
    split; [|split].
    + intros r Hr. destruct (Hall _ _ Hr) as [-> _]. apply Z.leb_gt. lia.
    + rewrite Hst, Htimes. do 2 f_equal. lia.
    + intros t Ht.
      rewrite (checkRateLimit_fresh (storeAfter cfg calls _) who t).
      * simpl. split; [apply Z.leb_le; lia | lia].
      * unfold freshAt. rewrite Hst. simpl. lia.
  - apply IH; [|done|done].
    unfold freshAt. by rewrite checkRateLimit_other.
Qed.

End RateLimiter.

(** The sweep keeps every record whose window ended less than a minute
    ago, so it cannot cut a running window short. *)
Lemma cleanupRateLimits_keeps (limits : gmap string RateRecord) ip record now :
  limits !! ip = Some record →
  now ≤ resetTime record + 60000 →
  cleanupRateLimits now limits !! ip = Some record.
Proof.
  intros Hrec Hnow. unfold cleanupRateLimits.
  apply map_lookup_filter_Some. split; [done|]. cbn. lia.
Qed.

Lemma checkRateLimit_window_witness :
  1 ≤ maxRequests RATE_LIMIT
  ∧ freshAt ∅ "203.0.113.7" 1000
  ∧ timesOf "203.0.113.7" burst = 1000 :: replicate 100 1000
  ∧ Forall (λ t, t ≤ 1000 + windowMs RATE_LIMIT) (replicate 100 1000)
  ∧ (∀ r, resultsFor RATE_LIMIT "203.0.113.7" burst ∅ !! Z.to_nat (maxRequests RATE_LIMIT)
            = Some r → allowed r = false)
  ∧ (∀ t, 1000 + windowMs RATE_LIMIT < t →
       allowed (checkRateLimit RATE_LIMIT "203.0.113.7" t
                  (storeAfter RATE_LIMIT burst ∅)).1 = true
       ∧ remaining (checkRateLimit RATE_LIMIT "203.0.113.7" t
                      (storeAfter RATE_LIMIT burst ∅)).1 = maxRequests RATE_LIMIT - 1).
Proof.
  assert (H1 : 1 ≤ maxRequests RATE_LIMIT) by (vm_compute; discriminate).
  assert (H2 : freshAt ∅ "203.0.113.7" 1000) by exact I.
  assert (H3 : timesOf "203.0.113.7" burst = 1000 :: replicate 100 1000) by reflexivity.
  assert (H4 : Forall (λ t, t ≤ 1000 + windowMs RATE_LIMIT) (replicate 100 1000))
    by (apply Forall_replicate; vm_compute; discriminate).
  repeat (split; [assumption|]).
  pose proof (checkRateLimit_window RATE_LIMIT _ _ _ _ _ H1 H2 H3 H4)
    as (_ & _ & Hrejected & _ & Hafter).
  exact (conj Hrejected Hafter).
Defined.

Lemma checkRateLimit_remaining_clamped_witness :
  allowed (checkRateLimit RATE_LIMIT "203.0.113.7" 1000
             (storeAfter RATE_LIMIT (replicate 99 ("203.0.113.7", 1000)) ∅)).1 = true
  ∧ remaining (checkRateLimit RATE_LIMIT "203.0.113.7" 1000
                 (storeAfter RATE_LIMIT (replicate 99 ("203.0.113.7", 1000)) ∅)).1 = 0.
Proof.
  destruct (checkRateLimit_remaining_clamped RATE_LIMIT
              (storeAfter RATE_LIMIT (replicate 99 ("203.0.113.7", 1000)) ∅)
              "203.0.113.7" 1000) as (record & Hrec & _ & _ & _ & _ & Hlast).
  apply Hlast. vm_compute in Hrec. injection Hrec as <-. reflexivity.
Defined.

(** ** The handler, stage by stage *)

Lemma truthy_nonempty (s : string) : s ≠ "" → ∃ c r, s = String c r.
Proof. destruct s; [congruence | eauto]. Qed.

(** Past the guards, the handler is the validator followed by the cache
    lookup and the proxy block. *)
Lemma handler_reachesValidator req env s endpoint apiKey :
  reachesValidator req env s endpoint apiKey →
  handler req env s =
    match decodeURIComponent endpoint with
    | None =>
        reply 400 (baseHeaders req env s)
          (Some (JObj [("error", JStr "Invalid endpoint encoding")])) (counted req env s)
    | Some decoded =>
        if isAllowed decoded then
          match cacheHit (cache s) (getCacheKey decoded) (now_cacheCheck env) with
          | Some entry =>
              reply 200 (headers (hitResponse (baseHeaders req env s) entry))
                (Some (data entry)) (counted req env s)
          | None =>
              proxyUpstream env (baseHeaders req env s) decoded (getCacheKey decoded)
                apiKey (counted req env s)
          end
        else
          reply 403 (baseHeaders req env s)
            (Some (JObj [("error", JStr "Endpoint not allowed");
                         ("allowed", JArr (JStr <$> ALLOWED_PATHS))]))
            (counted req env s)
    end.
Proof.
  intros (Hm & Hal & Hq & [c [e ->]]%truthy_nonempty & Hk & [c' [k ->]]%truthy_nonempty).
  unfold handler, baseHeaders, counted, rateCheckOf, clientKey in *.
  rewrite Hm, Hq, Hk. cbn [String.eqb negb].
  destruct (checkRateLimit _ _ _ _) as [rateCheck limits].
  cbn [fst snd] in *. rewrite Hal. cbn [negb cache].
  destruct (decodeURIComponent _) as [decoded|]; [|reflexivity].
  destruct (isAllowed decoded); reflexivity.
Qed.

(** Every invocation either stops at one of the five guards that precede
    the validator, or reaches the validator. *)
Lemma handler_guards req env s :
  handler req env s = reply 200 corsHeaders None s
  ∨ handler req env s =
      reply 405 corsHeaders (Some (JObj [("error", JStr "Method not allowed")])) s
  ∨ (allowed (rateCheckOf req env s) = false
     ∧ handler req env s =
         reply 429 (baseHeaders req env s)
           (Some (JObj [("error", JStr "Rate limit exceeded");
                        ("retryAfter",
                         JNum (ceilDiv (rc_resetTime (rateCheckOf req env s)
                                        - now_retryAfter env) 1000))]))
           (counted req env s))
  ∨ handler req env s =
      reply 400 (baseHeaders req env s)
        (Some (JObj [("error", JStr "Missing endpoint parameter");
                     ("example", JStr "/api/ebird?endpoint=/data/obs/US-MA/recent")]))
        (counted req env s)
  ∨ handler req env s =
      reply 500 (baseHeaders req env s)
        (Some (JObj [("error", JStr "Server configuration error");
                     ("hint", JStr "EBIRD_API_KEY environment variable is not set")]))
        (counted req env s)
  ∨ ∃ endpoint apiKey, reachesValidator req env s endpoint apiKey.
Proof.
  unfold reachesValidator, handler, baseHeaders, counted, rateCheckOf, clientKey.
  destruct (String.eqb (method req) "OPTIONS") eqn:Hopt; [by left|]. right.
  destruct (String.eqb (method req) "GET") eqn:Hget; cbn [negb]; [|by left]. right.
  apply String.eqb_eq in Hget.
  destruct (checkRateLimit _ _ _ _) as [rateCheck limits]. cbn [fst snd].
  destruct (allowed rateCheck) eqn:Hal; cbn [negb]; [|by left]. right.
  destruct (query_endpoint req) as [|[|c e]|items]; [by left..| |by left]. right.
  destruct (EBIRD_API_KEY env) as [[|c' k]|]; [by left| |by left]. right.
  exists (String c e), (String c' k). by repeat split.
Qed.

(** ** The proxy block *)

Lemma proxyUpstream_calls env hs decoded cacheKey apiKey s :
  upstreamCalls (proxyUpstream env hs decoded cacheKey apiKey s)
  = [(upstreamUrl decoded, apiKey)].
Proof.
  unfold proxyUpstream, upstreamUrl.
  destruct (fetch env _ _) as [up|t]; [|reflexivity].
  destruct (ok up); cbn [negb].
  - destruct (up_json up); reflexivity.
  - destruct (up_text up); reflexivity.
Qed.

Lemma proxyUpstream_error env hs decoded cacheKey apiKey s up errorText :
  fetch env (upstreamUrl decoded) apiKey = Returned up →
  ok up = false →
  up_text up = Returned errorText →
  proxyUpstream env hs decoded cacheKey apiKey s =
    {| response := passthrough hs (up_status up) errorText;
       upstreamCalls := [(upstreamUrl decoded, apiKey)];
       store := s |}.
Proof.
  unfold proxyUpstream, upstreamUrl. intros -> -> ->. reflexivity.
Qed.

Lemma proxyUpstream_success env hs decoded cacheKey apiKey s up payload :
  fetch env (upstreamUrl decoded) apiKey = Returned up →
  ok up = true →
  up_json up = Returned payload →
  let entry := {| data := payload;
                  expiry := now_cacheStore env + getCacheTTL decoded |} in
  status (response (proxyUpstream env hs decoded cacheKey apiKey s)) = 200
  ∧ body (response (proxyUpstream env hs decoded cacheKey apiKey s)) = Some payload
  ∧ headers (response (proxyUpstream env hs decoded cacheKey apiKey s)) !! "X-Cache"
    = Some (JStr "MISS")
  ∧ cache (store (proxyUpstream env hs decoded cacheKey apiKey s)) =
      (if sweepDue env
       then cleanupCache (now_cleanupCache env) (<[cacheKey := entry]> (cache s))
       else <[cacheKey := entry]> (cache s)).
Proof.
  unfold proxyUpstream, upstreamUrl. intros -> -> ->. cbn [negb response status body headers store].
  repeat split.
  - apply lookup_insert_eq.
  - destruct (sweepDue env); reflexivity.
Qed.

(** An upstream call is only ever issued from the proxy block, behind the
    validator and a cache miss. *)
Lemma handler_calls_inv req env s :
  upstreamCalls (handler req env s) ≠ [] →
  ∃ decoded apiKey,
    reachesCache req env s decoded apiKey
    ∧ cacheHit (cache s) (getCacheKey decoded) (now_cacheCheck env) = None
    ∧ handler req env s =
        proxyUpstream env (baseHeaders req env s) decoded (getCacheKey decoded) apiKey
          (counted req env s).
Proof.
  intros Hcalls.
  destruct (handler_guards req env s)
    as [H|[H|[[_ H]|[H|[H|(endpoint & apiKey & Hv)]]]]];
    try (rewrite H in Hcalls; by destruct Hcalls).
  pose proof (handler_reachesValidator _ _ _ _ _ Hv) as H.
  destruct (decodeURIComponent endpoint) as [decoded|] eqn:Hdec;
    [|rewrite H in Hcalls; by destruct Hcalls].
  destruct (isAllowed decoded) eqn:Hal; [|rewrite H in Hcalls; by destruct Hcalls].
  destruct (cacheHit _ _ _) as [entry|] eqn:Hhit; [rewrite H in Hcalls; by destruct Hcalls|].
  exists decoded, apiKey. split; [by exists endpoint|done].
Qed.

Lemma handler_reachesCache req env s decoded apiKey :
  reachesCache req env s decoded apiKey →
  handler req env s =
    match cacheHit (cache s) (getCacheKey decoded) (now_cacheCheck env) with
    | Some entry =>
        {| response := hitResponse (baseHeaders req env s) entry;
           upstreamCalls := [];
           store := counted req env s |}
    | None =>
        proxyUpstream env (baseHeaders req env s) decoded (getCacheKey decoded) apiKey
          (counted req env s)
    end.
Proof.
  intros (endpoint & Hv & Hdec & Hal).
  rewrite (handler_reachesValidator _ _ _ _ _ Hv), Hdec, Hal. reflexivity.
Qed.

(** ** Allowlist *)

(** C1 (amended). A request whose decoded endpoint starts with none of the
    seven allowed prefixes never causes an upstream call.  It is answered
    403 with the list of allowed prefixes in the body when it gets as far as
    the validator, that is, when it is a GET that the rate limiter admits,
    with a non-empty endpoint and a configured credential; those guards run
    first and answer with their own status.  The plain proxy of [ebird.js]
    behaves the same way behind its own guards (method, endpoint,
    credential). *)
Theorem allowlist_rejects_unlisted req env s endpoint decoded :
  query_endpoint req = QString endpoint →
  decodeURIComponent endpoint = Some decoded →
  isAllowed decoded = false →
  length ALLOWED_PATHS = 7%nat
  ∧ upstreamCalls (handler req env s) = []
  ∧ (∀ apiKey, reachesValidator req env s endpoint apiKey →
       pathNotAllowed (response (handler req env s)))
  ∧ (Basic.handler req env).2 = []
  ∧ (∀ apiKey, method req = "GET" → endpoint ≠ "" →
       EBIRD_API_KEY env = Some apiKey → apiKey ≠ "" →
       status (Basic.handler req env).1 = 403
       ∧ body (Basic.handler req env).1 =
           Some (JObj [("error", JStr "Endpoint not allowed");
                       ("allowedPaths", JArr (JStr <$> ALLOWED_PATHS))])).
Proof.
  intros Hq Hdec Hal. split; [reflexivity|].
  assert (Hv : ∀ apiKey, reachesValidator req env s endpoint apiKey →
    handler req env s =
      reply 403 (baseHeaders req env s)
        (Some (JObj [("error", JStr "Endpoint not allowed");
                     ("allowed", JArr (JStr <$> ALLOWED_PATHS))])) (counted req env s)).
  { intros apiKey Hv. rewrite (handler_reachesValidator _ _ _ _ _ Hv), Hdec, Hal.
    reflexivity. }
  split; [|split; [|split]].
  - destruct (handler_guards req env s)
      as [H|[H|[[_ H]|[H|[H|(endpoint' & apiKey & Hv')]]]]]; try by rewrite H.
    assert (endpoint' = endpoint) as ->.
    { destruct Hv' as (_ & _ & Hq' & _). congruence. }
    by rewrite (Hv _ Hv').
  - intros apiKey Hr. rewrite (Hv _ Hr). by split.
  - unfold Basic.handler. rewrite Hq. cbn [Basic.queryTruthy Basic.queryToString].
    repeat case_match; try reflexivity; simplify_eq.
    all: unfold isAllowed, ALLOWED_PATHS, Basic.allowedPaths in *.
    all: match goal with H : negb (existsb _ _) = false |- _ => rewrite Hal in H end.
    all: discriminate.
  - intros apiKey Hm [c [e ->]]%truthy_nonempty Hk [c' [k ->]]%truthy_nonempty.
    unfold Basic.handler. rewrite Hm, Hq, Hk.
    cbn [String.eqb negb Basic.queryTruthy Basic.queryToString truthy].
    rewrite Hdec. unfold isAllowed, ALLOWED_PATHS, Basic.allowedPaths in *.
    rewrite Hal. by split.
Qed.

(** The plain proxy coerces an array-valued endpoint to a string before
    decoding; whatever the parameter, an unlisted decoded endpoint is never
    fetched. *)
Lemma basic_handler_unlisted req env decoded :
  decodeURIComponent (Basic.queryToString (query_endpoint req)) = Some decoded →
  isAllowed decoded = false →
  (Basic.handler req env).2 = [].
Proof.
  intros Hdec Hal. unfold Basic.handler.
  repeat case_match; try reflexivity; simplify_eq.
  all: unfold isAllowed, ALLOWED_PATHS, Basic.allowedPaths in *.
  all: match goal with H : negb (existsb _ _) = false |- _ => rewrite Hal in H end.
  all: discriminate.
Qed.

Lemma allowlist_rejects_unlisted_witness :
  query_endpoint (getFrom "203.0.113.7" "/unsafe/path") = QString "/unsafe/path"
  ∧ decodeURIComponent "/unsafe/path" = Some "/unsafe/path"
  ∧ isAllowed "/unsafe/path" = false
  ∧ reachesValidator (getFrom "203.0.113.7" "/unsafe/path")
      (atTime 0 (upstreamOk sightings)) emptyStore "/unsafe/path" "test-token"
  ∧ pathNotAllowed
      (response (handler (getFrom "203.0.113.7" "/unsafe/path")
                   (atTime 0 (upstreamOk sightings)) emptyStore)).
Proof.
  assert (Hv : reachesValidator (getFrom "203.0.113.7" "/unsafe/path")
                 (atTime 0 (upstreamOk sightings)) emptyStore "/unsafe/path" "test-token")
    by (repeat split; discriminate || reflexivity).
  do 4 (split; [reflexivity || exact Hv|]).
  exact (proj1 (proj2 (proj2
    (allowlist_rejects_unlisted (getFrom "203.0.113.7" "/unsafe/path")
       (atTime 0 (upstreamOk sightings)) emptyStore "/unsafe/path" "/unsafe/path"
       eq_refl eq_refl eq_refl))) "test-token" Hv).
Defined.

(** C1 as stated fails: the 101st request of a client within one window,
    for an endpoint outside the allowlist, is answered 429 by the rate
    limiter, not 403. *)
Lemma allowlist_counterexample :
  query_endpoint (getFrom "203.0.113.7" "/unsafe/path") = QString "/unsafe/path"
  ∧ decodeURIComponent "/unsafe/path" = Some "/unsafe/path"
  ∧ isAllowed "/unsafe/path" = false
  ∧ status (response (handler (getFrom "203.0.113.7" "/unsafe/path")
                        (atTime 0 (upstreamOk sightings)) (afterRequests 100))) = 429
  ∧ ¬ pathNotAllowed
        (response (handler (getFrom "203.0.113.7" "/unsafe/path")
                     (atTime 0 (upstreamOk sightings)) (afterRequests 100))).
Proof.
  assert (Hst : status (response (handler (getFrom "203.0.113.7" "/unsafe/path")
                  (atTime 0 (upstreamOk sightings)) (afterRequests 100))) = 429)
    by (vm_compute; reflexivity).
  do 4 (split; [reflexivity || exact Hst|]).
  intros [H _]. rewrite Hst in H. discriminate.
Qed.

(** C6 (amended). The rate limiter runs before the validator: a request
    rejected for its encoding (400) or for its path (403) has already been
    counted.  The state it leaves is the state after [checkRateLimit]: the
    client's record exists, with the count restarted at 1 for a new client
    or an elapsed window and incremented otherwise, so it differs from what
    was there before; the cache is untouched and no upstream call is
    made. *)
Theorem validator_rejections_are_counted req env s :
  invalidEncoding (response (handler req env s))
  ∨ pathNotAllowed (response (handler req env s)) →
  store (handler req env s) = counted req env s
  ∧ upstreamCalls (handler req env s) = []
  ∧ allowed (rateCheckOf req env s) = true
  ∧ ∃ record,
      rateLimits (store (handler req env s)) !! clientKey req = Some record
      ∧ count record =
          match rateLimits s !! clientKey req with
          | Some old =>
              if resetTime old <? now_checkRateLimit env then 1 else count old + 1
          | None => 1
          end
      ∧ rateLimits s !! clientKey req ≠ Some record.
Proof.
  intros Hexit.
  assert (Hrec : ∃ record,
    rateLimits (counted req env s) !! clientKey req = Some record
    ∧ count record =
        match rateLimits s !! clientKey req with
        | Some old =>
            if resetTime old <? now_checkRateLimit env then 1 else count old + 1
        | None => 1
        end
    ∧ rateLimits s !! clientKey req ≠ Some record).
  { unfold counted. cbn [rateLimits].
    destruct (checkRateLimit_cases (rateLimits s) (clientKey req) (now_checkRateLimit env))
      as [Hf|(old & Hold & Hnow)].
    - rewrite (checkRateLimit_fresh RATE_LIMIT _ _ _ Hf). cbn [snd].
      rewrite lookup_insert_eq. eexists. split; [reflexivity|]. cbn [count].
      unfold freshAt in Hf. destruct (rateLimits s !! clientKey req) as [old|]; [|done].
      pose proof Hf as ->%Z.ltb_lt. split; [done|].
      intros [= ->]. cbn in Hf. lia.
    - rewrite (checkRateLimit_in_window RATE_LIMIT _ _ _ _ Hold Hnow). cbn [snd].
      rewrite lookup_insert_eq, Hold. eexists. split; [reflexivity|]. cbn [count].
      pose proof Hnow as ->%Z.ltb_ge. split; [done|].
      destruct old as [c r]. intros [= Hc]. cbn in Hc. lia. }
  destruct (handler_guards req env s)
    as [H|[H|[[_ H]|[H|[H|(endpoint & apiKey & Hv)]]]]];
    try (rewrite H in Hexit; destruct Hexit as [[? ?]|[? ?]]; discriminate).
  pose proof Hv as (_ & Hallowed & _).
  rewrite (handler_reachesValidator _ _ _ _ _ Hv) in *.
  destruct (decodeURIComponent endpoint) as [decoded|]; [|by repeat split].
  destruct (isAllowed decoded); [|by repeat split].
  exfalso.
  destruct (cacheHit _ _ _) as [entry|];
    [destruct Hexit as [[? ?]|[? ?]]; discriminate|].
  revert Hexit. unfold proxyUpstream.
  destruct (fetch env _ _) as [up|t];
    [|intros [[? ?]|[? ?]]; discriminate].
  destruct (ok up); cbn [negb].
  - destruct (up_json up); intros [[? ?]|[? ?]]; discriminate.
  - destruct (up_text up); intros [[? Hb]|[? Hb]]; discriminate.
Qed.

Lemma validator_rejections_are_counted_witness :
  pathNotAllowed
    (response (handler (getFrom "203.0.113.7" "/unsafe/path")
                 (atTime 0 (upstreamOk sightings)) emptyStore))
  ∧ store (handler (getFrom "203.0.113.7" "/unsafe/path")
             (atTime 0 (upstreamOk sightings)) emptyStore)
    = counted (getFrom "203.0.113.7" "/unsafe/path")
        (atTime 0 (upstreamOk sightings)) emptyStore.
Proof.
  assert (H : pathNotAllowed
    (response (handler (getFrom "203.0.113.7" "/unsafe/path")
                 (atTime 0 (upstreamOk sightings)) emptyStore)))
    by (split; reflexivity).
  split; [exact H|].
  exact (proj1 (validator_rejections_are_counted _ _ _ (or_intror H))).
Defined.

(** C6 as stated fails: a request of a previously unseen client rejected
    by the validator, for its path or for its encoding, leaves a record
    with count 1 for that client. *)
Lemma validator_order_counterexample :
  pathNotAllowed
    (response (handler (getFrom "203.0.113.7" "/unsafe/path")
                 (atTime 0 (upstreamOk sightings)) emptyStore))
  ∧ invalidEncoding
      (response (handler (getFrom "203.0.113.7" "%E0%A4%A")
                   (atTime 0 (upstreamOk sightings)) emptyStore))
  ∧ rateLimits emptyStore !! "203.0.113.7" = None
  ∧ rateLimits (store (handler (getFrom "203.0.113.7" "/unsafe/path")
                         (atTime 0 (upstreamOk sightings)) emptyStore)) !! "203.0.113.7"
    = Some {| count := 1; resetTime := 60000 |}
  ∧ rateLimits (store (handler (getFrom "203.0.113.7" "%E0%A4%A")
                         (atTime 0 (upstreamOk sightings)) emptyStore)) !! "203.0.113.7"
    = Some {| count := 1; resetTime := 60000 |}.
Proof. repeat split; vm_compute; reflexivity. Qed.

(** ** Cache store *)

Lemma cacheHit_Some (c : gmap string CacheEntry) key now entry :
  cacheHit c key now = Some entry ↔ c !! key = Some entry ∧ now < expiry entry.
Proof.
  unfold cacheHit. destruct (c !! key) as [e|];
    [|split; [discriminate | intros [? _]; discriminate]].
  destruct (now <? expiry e) eqn:Hlt.
  - apply Z.ltb_lt in Hlt. split; [intros [= ->] | intros [[= ->] _]]; done.
  - apply Z.ltb_ge in Hlt. split; [discriminate|]. intros [[= ->] ?]. lia.
Qed.

Lemma cacheHit_None (c : gmap string CacheEntry) key now :
  cacheHit c key now = None ↔ ∀ entry, c !! key = Some entry → expiry entry ≤ now.
Proof.
  unfold cacheHit. destruct (c !! key) as [e|]; [|split; [discriminate | done]].
  destruct (now <? expiry e) eqn:Hlt.
  - apply Z.ltb_lt in Hlt. split; [discriminate|]. intros H. specialize (H e eq_refl). lia.
  - apply Z.ltb_ge in Hlt. split; [intros _ entry [= <-]; done | done].
Qed.

(** A miss stays a miss as the clock advances, until something is stored. *)
Lemma cacheHit_None_later (c : gmap string CacheEntry) key now now' :
  cacheHit c key now = None → now ≤ now' → cacheHit c key now' = None.
Proof.
  rewrite !cacheHit_None. intros H Hle entry He. specialize (H entry He). lia.
Qed.

Lemma cleanupCache_lookup now (c : gmap string CacheEntry) key :
  cleanupCache now c !! key =
    match c !! key with
    | Some entry => if expiry entry <? now then None else Some entry
    | None => None
    end.
Proof.
  unfold cleanupCache. rewrite map_lookup_filter.
  destruct (c !! key) as [e|]; [|reflexivity]. cbn.
  destruct (expiry e <? now) eqn:Hlt.
  - apply Z.ltb_lt in Hlt. by rewrite option_guard_False by (cbn; lia).
  - apply Z.ltb_ge in Hlt. by rewrite option_guard_True by (cbn; lia).
Qed.

(** The sweep removes only what a lookup would no longer serve. *)
Lemma cacheHit_cleanupCache sweep (c : gmap string CacheEntry) key now :
  sweep ≤ now → cacheHit (cleanupCache sweep c) key now = cacheHit c key now.
Proof.
  intros Hle. unfold cacheHit. rewrite cleanupCache_lookup.
  destruct (c !! key) as [e|]; [|reflexivity].
  destruct (expiry e <? sweep) eqn:Hlt; [|reflexivity].
  apply Z.ltb_lt in Hlt. symmetry. destruct (now <? expiry e) eqn:Hn; [|reflexivity].
  apply Z.ltb_lt in Hn. lia.
Qed.

Lemma corsHeaders_no_marker : corsHeaders !! "X-Cache" = None.
Proof. reflexivity. Qed.

Lemma baseHeaders_no_marker req env s : baseHeaders req env s !! "X-Cache" = None.
Proof.
  unfold baseHeaders, rateLimitHeaders.
  rewrite !lookup_insert_ne by discriminate. apply corsHeaders_no_marker.
Qed.

Lemma hitResponse_marker hs entry :
  headers (hitResponse hs entry) !! "X-Cache" = Some (JStr "HIT").
Proof.
  unfold hitResponse. cbn [headers].
  rewrite lookup_insert_ne by discriminate. apply lookup_insert_eq.
Qed.

(** The request's endpoint fixes the decoded endpoint it is looked up by. *)
Lemma reachesCache_decoded req env env' s s' decoded decoded' apiKey apiKey' :
  reachesCache req env s decoded apiKey →
  reachesCache req env' s' decoded' apiKey' →
  decoded' = decoded.
Proof.
  intros (e & (_ & _ & Hq & _) & Hd & _) (e' & (_ & _ & Hq' & _) & Hd' & _).
  congruence.
Qed.

(** C5. The cache lookup is lazily expiring.  A stored entry whose expiry
    has passed at the lookup ([expiry <= now]) is a miss, whether or not it
    is still in the map: the request goes to the upstream and the response
    is the one the handler gives with the entry physically removed, so the
    stored payload does not reach the caller.  A stored entry whose expiry
    is still ahead ([now < expiry]) is a hit and is served. *)
Theorem cache_lookup_lazy_expiry (c : gmap string CacheEntry) key entry now :
  c !! key = Some entry →
  (expiry entry ≤ now → cacheHit c key now = None)
  ∧ (now < expiry entry → cacheHit c key now = Some entry)
  ∧ (∀ req env s,
       cache s = c → now_cacheCheck env = now → expiry entry ≤ now →
       response (handler req env s) = response (handler req env (evict key s))
       ∧ upstreamCalls (handler req env s) = upstreamCalls (handler req env (evict key s)))
  ∧ (∀ req env s decoded apiKey,
       cache s = c → now_cacheCheck env = now → key = getCacheKey decoded →
       reachesCache req env s decoded apiKey →
       (expiry entry ≤ now →
        upstreamCalls (handler req env s) = [(upstreamUrl decoded, apiKey)])
       ∧ (now < expiry entry →
          response (handler req env s) = hitResponse (baseHeaders req env s) entry
          ∧ upstreamCalls (handler req env s) = [])).
Proof.
  intros Hentry.
  assert (Hmiss : expiry entry ≤ now → cacheHit c key now = None).
  { intros Hle. apply cacheHit_None. intros e He. congruence. }
  assert (Hhit : now < expiry entry → cacheHit c key now = Some entry).
  { intros Hlt. by apply cacheHit_Some. }
  split; [exact Hmiss|]. split; [exact Hhit|]. split.
  - intros req env s <- <- Hle.
    assert (Hsame : ∀ k, cacheHit (delete key (cache s)) k (now_cacheCheck env)
                         = cacheHit (cache s) k (now_cacheCheck env)).
    { intros k. destruct (decide (k = key)) as [->|Hne].
      - rewrite (Hmiss Hle). unfold cacheHit. by rewrite lookup_delete_eq.
      - unfold cacheHit. by rewrite lookup_delete_ne. }
    unfold handler, evict. cbn [rateLimits cache].
    destruct (method req =? "OPTIONS")%string; [by split|].
    destruct (negb (method req =? "GET")%string); [split; reflexivity|].
    destruct (checkRateLimit _ _ _ _) as [rateCheck limits].
    destruct (negb (allowed rateCheck)); [split; reflexivity|].
    destruct (query_endpoint req) as [|[|? ?]|]; try (split; reflexivity).
    destruct (EBIRD_API_KEY env) as [[|? ?]|]; try (split; reflexivity).
    destruct (decodeURIComponent _) as [decoded|]; [|split; reflexivity].
    destruct (negb (isAllowed decoded)); [split; reflexivity|]. cbn [cache].
    rewrite Hsame.
    destruct (cacheHit (cache s) (getCacheKey decoded) _); [split; reflexivity|].
    unfold proxyUpstream. destruct (fetch env _ _) as [up|]; [|split; reflexivity].
    destruct (negb (ok up)); [destruct (up_text up) | destruct (up_json up)];
      split; reflexivity.
  - intros req env s decoded apiKey <- <- -> Hreach.
    rewrite (handler_reachesCache _ _ _ _ _ Hreach). split.
    + intros Hle. rewrite (Hmiss Hle). apply proxyUpstream_calls.
    + intros Hlt. by rewrite (Hhit Hlt).
Qed.

Lemma cache_lookup_lazy_expiry_witness :
  cache (afterRequests 1) !! getCacheKey "/data/obs/US-MA/recent"
    = Some {| data := sightings; expiry := 300000 |}
  ∧ cacheHit (cache (afterRequests 1)) (getCacheKey "/data/obs/US-MA/recent") 300000 = None
  ∧ cacheHit (cache (afterRequests 1)) (getCacheKey "/data/obs/US-MA/recent") 299999
    = Some {| data := sightings; expiry := 300000 |}.
Proof.
  assert (H : cache (afterRequests 1) !! getCacheKey "/data/obs/US-MA/recent"
              = Some {| data := sightings; expiry := 300000 |})
    by (vm_compute; reflexivity).
  split; [exact H|].
  pose proof (cache_lookup_lazy_expiry _ _ _ 300000 H) as (Hmiss & _).
  pose proof (cache_lookup_lazy_expiry _ _ _ 299999 H) as (_ & Hhit & _).
  split; [apply Hmiss | apply Hhit]; cbn; lia.
Defined.

(** C9. A cache hit leaves the cache store exactly as it was: the state
    after a response marked [X-Cache: HIT] is the state after the rate
    check alone, with the same cache map, nothing written, nothing swept and
    no upstream call; the entry served is still stored with its expiry.
    More generally an invocation leaves the state untouched, or only counts
    the request, unless it answers 200 with [X-Cache: MISS]: the cache
    write and the sweep are reached on the fetch-success path only. *)
Theorem cache_hit_leaves_cache req env s :
  (headers (response (handler req env s)) !! "X-Cache" = Some (JStr "HIT") →
   store (handler req env s) = counted req env s
   ∧ cache (store (handler req env s)) = cache s
   ∧ upstreamCalls (handler req env s) = []
   ∧ ∃ decoded entry,
       cache s !! getCacheKey decoded = Some entry
       ∧ now_cacheCheck env < expiry entry
       ∧ cache (store (handler req env s)) !! getCacheKey decoded = Some entry
       ∧ response (handler req env s) = hitResponse (baseHeaders req env s) entry)
  ∧ (store (handler req env s) = s
     ∨ store (handler req env s) = counted req env s
     ∨ status (response (handler req env s)) = 200
       ∧ headers (response (handler req env s)) !! "X-Cache" = Some (JStr "MISS")).
Proof.
  destruct (handler_guards req env s)
    as [H|[H|[[_ H]|[H|[H|(endpoint & apiKey & Hv)]]]]];
    try (rewrite H; cbn [reply response headers store];
         rewrite ?corsHeaders_no_marker, ?baseHeaders_no_marker;
         split; [discriminate | tauto]).
  rewrite (handler_reachesValidator _ _ _ _ _ Hv).
  destruct (decodeURIComponent endpoint) as [decoded|];
    [|cbn [reply response headers store];
      rewrite baseHeaders_no_marker; split; [discriminate | tauto]].
  destruct (isAllowed decoded);
    [|cbn [reply response headers store];
      rewrite baseHeaders_no_marker; split; [discriminate | tauto]].
  destruct (cacheHit _ _ _) as [entry|] eqn:Hhit.
  - apply cacheHit_Some in Hhit as [Hentry Hlt].
    cbn [reply response headers store cache counted]. split; [|tauto].
    intros _. repeat split. by exists decoded, entry.
  - unfold proxyUpstream.
    destruct (fetch env _ _) as [up|t];
      [|cbn [proxyError response headers store];
        rewrite baseHeaders_no_marker; split; [discriminate | tauto]].
    destruct (ok up); cbn [negb].
    + destruct (up_json up) as [payload|t];
        [|cbn [proxyError response headers store];
          rewrite baseHeaders_no_marker; split; [discriminate | tauto]].
      cbn [response headers status]. rewrite lookup_insert_eq.
      split; [discriminate | by right; right].
    + destruct (up_text up);
        cbn [proxyError response headers store];
        rewrite baseHeaders_no_marker; (split; [discriminate | tauto]).
Qed.

Lemma cache_hit_leaves_cache_witness :
  headers (response (handler (getFrom "203.0.113.7" "/data/obs/US-MA/recent")
                       (atTime 1000 (upstreamOk JNull)) (afterRequests 1))) !! "X-Cache"
    = Some (JStr "HIT")
  ∧ cache (store (handler (getFrom "203.0.113.7" "/data/obs/US-MA/recent")
                    (atTime 1000 (upstreamOk JNull)) (afterRequests 1)))
    = cache (afterRequests 1).
Proof.
  assert (H : headers (response (handler (getFrom "203.0.113.7" "/data/obs/US-MA/recent")
                       (atTime 1000 (upstreamOk JNull)) (afterRequests 1))) !! "X-Cache"
              = Some (JStr "HIT")) by (vm_compute; reflexivity).
  split; [exact H|].
  exact (proj1 (proj2 (proj1 (cache_hit_leaves_cache _ _ _) H))).
Defined.

(** ** Upstream errors *)

(** C3 (amended). When the upstream answers the request's call with a
    non-success status, the cache is left as it was, so the same request,
    sent again at any later clock reading and again getting as far as the
    cache lookup, misses again and issues another upstream call.  When the
    body text of that answer is read, the response carries the upstream's
    very status and the text unmodified (in [details]); when reading the
    body fails, the [catch] clause answers 500 with the generic error. *)
Theorem upstream_error_passthrough req env s decoded apiKey up :
  upstreamCalls (handler req env s) = [(upstreamUrl decoded, apiKey)] →
  fetch env (upstreamUrl decoded) apiKey = Returned up →
  ok up = false →
  (∀ errorText, up_text up = Returned errorText →
     status (response (handler req env s)) = up_status up
     ∧ body (response (handler req env s)) =
         Some (JObj [("error", JStr ("eBird API error: " +:+ toString (up_status up)));
                     ("details", JStr errorText)]))
  ∧ (∀ t, up_text up = Threw t →
       status (response (handler req env s)) = 500
       ∧ body (response (handler req env s)) =
           Some (JObj [("error", JStr "Failed to fetch from eBird");
                       ("message", JStr (errorMessage t))]))
  ∧ cache (store (handler req env s)) = cache s
  ∧ (∀ env' decoded' apiKey',
       now_cacheCheck env ≤ now_cacheCheck env' →
       reachesCache req env' (store (handler req env s)) decoded' apiKey' →
       upstreamCalls (handler req env' (store (handler req env s)))
       = [(upstreamUrl decoded, apiKey')]).
Proof.
  intros Hcalls Hfetch Hok.
  destruct (handler_calls_inv req env s) as (decoded0 & key & Hreach & Hmiss & Heq);
    [by rewrite Hcalls|].
  rewrite Heq, proxyUpstream_calls in Hcalls.
  injection Hcalls as Hd ->. change (decoded0 = decoded) in Hd. subst decoded0.
  assert (Hstore : store (handler req env s) = counted req env s).
  { rewrite Heq. unfold proxyUpstream. fold (upstreamUrl decoded).
    rewrite Hfetch, Hok. cbn [negb]. by destruct (up_text up). }
  split; [|split; [|split]].
  - intros errorText Htext.
    rewrite Heq, (proxyUpstream_error _ _ _ _ _ _ _ _ Hfetch Hok Htext). by split.
  - intros t Htext. rewrite Heq. unfold proxyUpstream. fold (upstreamUrl decoded).
    rewrite Hfetch, Hok, Htext. by split.
  - by rewrite Hstore.
  - intros env' decoded' apiKey' Hclock Hreach'. rewrite Hstore in Hreach' |- *.
    pose proof (reachesCache_decoded _ _ _ _ _ _ _ _ _ Hreach Hreach') as ->.
    rewrite (handler_reachesCache _ _ _ _ _ Hreach'). cbn [cache counted].
    rewrite (cacheHit_None_later _ _ _ _ Hmiss Hclock).
    apply proxyUpstream_calls.
Qed.

Lemma upstream_error_passthrough_witness :
  upstreamCalls (handler (getFrom "203.0.113.7" "/data/obs/XX/recent")
                   (atTime 0 (upstreamFails 404 "No such region")) emptyStore)
    = [(upstreamUrl "/data/obs/XX/recent", "test-token")]
  ∧ status (response (handler (getFrom "203.0.113.7" "/data/obs/XX/recent")
                        (atTime 0 (upstreamFails 404 "No such region")) emptyStore))
    = 404
  ∧ upstreamCalls
      (handler (getFrom "203.0.113.7" "/data/obs/XX/recent")
         (atTime 5 (upstreamOk sightings))
         (store (handler (getFrom "203.0.113.7" "/data/obs/XX/recent")
                   (atTime 0 (upstreamFails 404 "No such region")) emptyStore)))
    = [(upstreamUrl "/data/obs/XX/recent", "test-token")].
Proof.
  assert (H : upstreamCalls (handler (getFrom "203.0.113.7" "/data/obs/XX/recent")
                (atTime 0 (upstreamFails 404 "No such region")) emptyStore)
              = [(upstreamUrl "/data/obs/XX/recent", "test-token")])
    by (vm_compute; reflexivity).
  pose proof (upstream_error_passthrough _ _ _ _ _ _ H eq_refl eq_refl)
    as (Hread & _ & _ & Hagain).
  split; [exact H|]. split; [exact (proj1 (Hread "No such region" eq_refl))|].
  apply (Hagain (atTime 5 (upstreamOk sightings)) "/data/obs/XX/recent" "test-token").
  - cbn. lia.
  - exists "/data/obs/XX/recent". repeat split; discriminate || reflexivity.
Defined.

(** C3 as stated fails: the upstream answers 503 and reading the body of
    that answer fails; the request, which was admitted and missed the
    cache, is answered 500, not 503. *)
Lemma upstream_error_counterexample :
  upstreamCalls
    (handler (getFrom "203.0.113.7" "/data/obs/US-MA/recent")
       (atTime 0 (Returned {| up_status := 503;
                              up_text := Threw (ThrownError "terminated");
                              up_json := Threw (ThrownError "terminated") |}))
       emptyStore)
    = [(upstreamUrl "/data/obs/US-MA/recent", "test-token")]
  ∧ ok {| up_status := 503;
          up_text := Threw (ThrownError "terminated");
          up_json := Threw (ThrownError "terminated") |} = false
  ∧ status (response
      (handler (getFrom "203.0.113.7" "/data/obs/US-MA/recent")
         (atTime 0 (Returned {| up_status := 503;
                                up_text := Threw (ThrownError "terminated");
                                up_json := Threw (ThrownError "terminated") |}))
         emptyStore))
    = 500
  ∧ body (response
      (handler (getFrom "203.0.113.7" "/data/obs/US-MA/recent")
         (atTime 0 (Returned {| up_status := 503;
                                up_text := Threw (ThrownError "terminated");
                                up_json := Threw (ThrownError "terminated") |}))
         emptyStore))
    = Some (JObj [("error", JStr "Failed to fetch from eBird");
                  ("message", JStr "terminated")]).
Proof. repeat split; vm_compute; reflexivity. Qed.

(** ** Cache idempotence *)

(** C4. After a request has fetched a payload successfully, the payload is
    stored under the request's key with expiry [now + ttl].  Any later
    request for the same key that gets as far as the cache lookup is
    answered, while the clock is before that expiry, with the identical
    payload and the HIT marker, without an upstream call; from the expiry
    on it issues exactly one upstream call. *)
Theorem cache_idempotence req env s decoded apiKey up payload :
  upstreamCalls (handler req env s) = [(upstreamUrl decoded, apiKey)] →
  fetch env (upstreamUrl decoded) apiKey = Returned up →
  ok up = true →
  up_json up = Returned payload →
  status (response (handler req env s)) = 200
  ∧ body (response (handler req env s)) = Some payload
  ∧ headers (response (handler req env s)) !! "X-Cache" = Some (JStr "MISS")
  ∧ (∀ req' env' apiKey',
       now_cleanupCache env ≤ now_cacheCheck env' →
       reachesCache req' env' (store (handler req env s)) decoded apiKey' →
       (now_cacheCheck env' < now_cacheStore env + getCacheTTL decoded →
        status (response (handler req' env' (store (handler req env s)))) = 200
        ∧ body (response (handler req' env' (store (handler req env s)))) = Some payload
        ∧ headers (response (handler req' env' (store (handler req env s)))) !! "X-Cache"
          = Some (JStr "HIT")
        ∧ upstreamCalls (handler req' env' (store (handler req env s))) = [])
       ∧ (now_cacheStore env + getCacheTTL decoded ≤ now_cacheCheck env' →
          upstreamCalls (handler req' env' (store (handler req env s)))
          = [(upstreamUrl decoded, apiKey')])).
Proof.
  intros Hcalls Hfetch Hok Hjson.
  destruct (handler_calls_inv req env s) as (decoded0 & key & Hreach & Hmiss & Heq);
    [by rewrite Hcalls|].
  rewrite Heq, proxyUpstream_calls in Hcalls.
  injection Hcalls as Hd ->. change (decoded0 = decoded) in Hd. subst decoded0.
  rewrite Heq.
  destruct (proxyUpstream_success env (baseHeaders req env s) decoded
              (getCacheKey decoded) apiKey (counted req env s) up payload Hfetch Hok Hjson)
    as (Hst & Hbody & Hmark & Hcache).
  do 3 (split; [assumption|]).
  intros req' env' apiKey' Hclock Hreach'.
  rewrite (handler_reachesCache _ _ _ _ _ Hreach').
  set (entry := {| data := payload; expiry := now_cacheStore env + getCacheTTL decoded |}) in *.
  assert (Hlookup :
    cacheHit (cache (store (proxyUpstream env (baseHeaders req env s) decoded
                              (getCacheKey decoded) apiKey (counted req env s))))
      (getCacheKey decoded) (now_cacheCheck env')
    = if now_cacheCheck env' <? expiry entry then Some entry else None).
  { rewrite Hcache.
    assert (Hins : cacheHit (<[getCacheKey decoded := entry]> (cache (counted req env s)))
                     (getCacheKey decoded) (now_cacheCheck env')
                   = if now_cacheCheck env' <? expiry entry then Some entry else None).
    { unfold cacheHit. by rewrite lookup_insert_eq. }
    destruct (sweepDue env); [|exact Hins].
    by rewrite cacheHit_cleanupCache. }
  rewrite Hlookup. split.
  - intros Hlt%Z.ltb_lt. cbn [expiry entry]. rewrite Hlt.
    cbn [response upstreamCalls]. rewrite hitResponse_marker. by repeat split.
  - intros Hge%Z.ltb_ge. cbn [expiry entry]. rewrite Hge. apply proxyUpstream_calls.
Qed.

Lemma cache_idempotence_witness :
  upstreamCalls (handler (getFrom "203.0.113.7" "/data/obs/US-MA/recent")
                   (sweepingAt 0 (upstreamOk sightings)) emptyStore)
    = [(upstreamUrl "/data/obs/US-MA/recent", "test-token")]
  ∧ body (response
            (handler (getFrom "198.51.100.2" "%2Fdata%2Fobs%2FUS-MA%2Frecent")
               (atTime 299999 (upstreamOk JNull))
               (store (handler (getFrom "203.0.113.7" "/data/obs/US-MA/recent")
                         (sweepingAt 0 (upstreamOk sightings)) emptyStore))))
    = Some sightings
  ∧ upstreamCalls
      (handler (getFrom "198.51.100.2" "%2Fdata%2Fobs%2FUS-MA%2Frecent")
         (atTime 299999 (upstreamOk JNull))
         (store (handler (getFrom "203.0.113.7" "/data/obs/US-MA/recent")
                   (sweepingAt 0 (upstreamOk sightings)) emptyStore)))
    = [].
Proof.
  assert (H : upstreamCalls (handler (getFrom "203.0.113.7" "/data/obs/US-MA/recent")
                (sweepingAt 0 (upstreamOk sightings)) emptyStore)
              = [(upstreamUrl "/data/obs/US-MA/recent", "test-token")])
    by (vm_compute; reflexivity).
  split; [exact H|].
  destruct (cache_idempotence _ _ _ _ _ _ _ H eq_refl eq_refl eq_refl)
    as (_ & _ & _ & Hnext).
  destruct (Hnext (getFrom "198.51.100.2" "%2Fdata%2Fobs%2FUS-MA%2Frecent")
              (atTime 299999 (upstreamOk JNull)) "test-token") as [Hhit _].
  - cbn. lia.
  - exists "%2Fdata%2Fobs%2FUS-MA%2Frecent". repeat split; discriminate || reflexivity.
  - destruct Hhit as (_ & Hbody & _ & Hnone); [vm_compute; reflexivity|].
    by split.
Defined.

(** ** The retry-after hint *)

Lemma ceilDiv_le (a : Z) : a ≤ 60000 → ceilDiv a 1000 ≤ 60.
Proof.
  intros Ha. unfold ceilDiv.
  assert (- 60 ≤ (- a) / 1000) by (apply Z.div_le_lower_bound; lia). lia.
Qed.

Lemma ceilDiv_pos (a : Z) : 0 < ceilDiv a 1000 ↔ 0 < a.
Proof.
  unfold ceilDiv.
  pose proof (Z.div_mod (- a) 1000 ltac:(lia)).
  pose proof (Z.mod_pos_bound (- a) 1000 ltac:(lia)). lia.
Qed.

Lemma ceilDiv_nonneg (a : Z) : 0 ≤ a → 0 ≤ ceilDiv a 1000.
Proof.
  unfold ceilDiv. intros Ha.
  pose proof (Z.div_mod (- a) 1000 ltac:(lia)).
  pose proof (Z.mod_pos_bound (- a) 1000 ltac:(lia)). lia.
Qed.

(** The rate-limit map an invocation leaves holds records that were there
    before or that the rate check wrote; the sweep only removes. *)
Lemma handler_rateLimits req env s ip record :
  rateLimits (store (handler req env s)) !! ip = Some record →
  rateLimits s !! ip = Some record
  ∨ rateLimits (counted req env s) !! ip = Some record.
Proof.
  destruct (handler_guards req env s)
    as [H|[H|[[_ H]|[H|[H|(endpoint & apiKey & Hv)]]]]];
    try (rewrite H; cbn [reply store]; tauto).
  rewrite (handler_reachesValidator _ _ _ _ _ Hv).
  destruct (decodeURIComponent endpoint) as [decoded|]; [|cbn [reply store]; tauto].
  destruct (isAllowed decoded); [|cbn [reply store]; tauto].
  destruct (cacheHit _ _ _); [cbn [reply store]; tauto|].
  unfold proxyUpstream. destruct (fetch env _ _) as [up|]; [|cbn [store]; tauto].
  destruct (ok up); cbn [negb];
    [|destruct (up_text up); cbn [store]; tauto].
  destruct (up_json up); [|cbn [store]; tauto].
  cbn [store]. destruct (sweepDue env); cbn [rateLimits]; [|tauto].
  unfold cleanupRateLimits. intros [? _]%map_lookup_filter_Some. by right.
Qed.

Lemma counted_windowsBounded t req env s :
  windowsBounded t (rateLimits s) →
  t ≤ now_checkRateLimit env →
  windowsBounded (now_checkRateLimit env) (rateLimits (counted req env s)).
Proof.
  intros Hinv Hle ip record. unfold counted. cbn [rateLimits].
  destruct (checkRateLimit_cases (rateLimits s) (clientKey req) (now_checkRateLimit env))
    as [Hf|(old & Hold & Hnow)].
  - rewrite (checkRateLimit_fresh RATE_LIMIT _ _ _ Hf). cbn [snd].
    destruct (decide (ip = clientKey req)) as [->|Hne].
    + rewrite lookup_insert_eq. intros [= <-]. cbn. lia.
    + rewrite lookup_insert_ne by done. intros H%Hinv. lia.
  - rewrite (checkRateLimit_in_window RATE_LIMIT _ _ _ _ Hold Hnow). cbn [snd].
    destruct (decide (ip = clientKey req)) as [->|Hne].
    + rewrite lookup_insert_eq. intros [= <-]. cbn [resetTime].
      specialize (Hinv _ _ Hold). lia.
    + rewrite lookup_insert_ne by done. intros H%Hinv. lia.
Qed.

(** In every reachable state no window ends later than one window length
    after the last rate-check reading. *)
Lemma reachable_windowsBounded t s : reachable t s → windowsBounded t (rateLimits s).
Proof.
  induction 1 as [t|t s req env Hreach IH Hle].
  - intros ip record. cbn. by rewrite lookup_empty.
  - intros ip record [Hold|Hnew]%handler_rateLimits.
    + specialize (IH _ _ Hold). lia.
    + exact (counted_windowsBounded t req env s IH Hle ip record Hnew).
Qed.

(** C8 (amended). For a request answered 429 by the rate limiter, in a
    state reached from a cold start with a clock that does not go
    backwards: [retryAfter] is the ceiling of [(resetTime - now) / 1000]
    for the client's stored window and the clock reading taken for the
    body; it is at most 60; it is never negative when that reading equals
    the rate check's; and it is strictly positive exactly when that reading
    is strictly before [resetTime].  (A request arriving exactly at
    [resetTime] is still in the old window, is rejected, and gets
    [retryAfter = 0].) *)
Theorem retryAfter_bounds t req env s retryAfter :
  reachable t s →
  t ≤ now_checkRateLimit env →
  now_checkRateLimit env ≤ now_retryAfter env →
  rateLimited (response (handler req env s)) retryAfter →
  ∃ record,
    rateLimits (store (handler req env s)) !! clientKey req = Some record
    ∧ retryAfter = ceilDiv (resetTime record - now_retryAfter env) 1000
    ∧ retryAfter ≤ 60
    ∧ (0 < retryAfter ↔ now_retryAfter env < resetTime record)
    ∧ (now_retryAfter env = now_checkRateLimit env → 0 ≤ retryAfter).
Proof.
  intros Hreach%reachable_windowsBounded Hle Hclock [Hst Hbody].
  destruct (handler_guards req env s)
    as [H|[H|[[Hrej H]|[H|[H|(endpoint & apiKey & Hv)]]]]];
    try (rewrite H in Hst; discriminate).
  - rewrite H in Hbody |- *. clear Hst H. unfold counted, rateCheckOf in *.
    destruct (checkRateLimit_cases (rateLimits s) (clientKey req) (now_checkRateLimit env))
      as [Hf|(old & Hold & Hnow)].
    + rewrite (checkRateLimit_fresh RATE_LIMIT _ _ _ Hf) in Hrej. discriminate.
    + rewrite (checkRateLimit_in_window RATE_LIMIT _ _ _ _ Hold Hnow) in Hbody |- *.
      cbn [reply response store body rateLimits fst snd rc_resetTime] in Hbody |- *.
      injection Hbody as <-.
      rewrite lookup_insert_eq. eexists. split; [reflexivity|]. cbn [resetTime].
      specialize (Hreach _ _ Hold). cbn in Hreach.
      split; [reflexivity|]. split; [apply ceilDiv_le; lia|].
      split; [rewrite ceilDiv_pos; lia|].
      intros Heq. apply ceilDiv_nonneg. lia.
  - exfalso. revert Hst Hbody. rewrite (handler_reachesValidator _ _ _ _ _ Hv).
    destruct (decodeURIComponent endpoint) as [decoded|]; [|discriminate].
    destruct (isAllowed decoded); [|discriminate].
    destruct (cacheHit _ _ _); [discriminate|].
    unfold proxyUpstream. destruct (fetch env _ _) as [up|]; [|discriminate].
    destruct (ok up); cbn [negb].
    + destruct (up_json up); discriminate.
    + destruct (up_text up); [|discriminate]. intros _. discriminate.
Qed.

Lemma afterRequests_reachable (n : nat) : reachable 0 (afterRequests n).
Proof.
  induction n as [|n IH]; [apply reachable_cold|].
  change (afterRequests (S n)) with
    (store (handler (getFrom "203.0.113.7" "/data/obs/US-MA/recent")
              (atTime 0 (upstreamOk sightings)) (afterRequests n))).
  by apply (reachable_handled 0 _ _ (atTime 0 (upstreamOk sightings))).
Qed.

Lemma retryAfter_bounds_witness :
  reachable 0 (afterRequests 100)
  ∧ rateLimited
      (response (handler (getFrom "203.0.113.7" "/data/obs/US-MA/recent")
                   (atTime 1000 (upstreamOk sightings)) (afterRequests 100))) 59
  ∧ 59 ≤ 60.
Proof.
  assert (Hr : rateLimited
      (response (handler (getFrom "203.0.113.7" "/data/obs/US-MA/recent")
                   (atTime 1000 (upstreamOk sightings)) (afterRequests 100))) 59)
    by (split; vm_compute; reflexivity).
  split; [apply afterRequests_reachable|]. split; [exact Hr|].
  destruct (retryAfter_bounds 0 (getFrom "203.0.113.7" "/data/obs/US-MA/recent")
              (atTime 1000 (upstreamOk sightings)) _ 59
              (afterRequests_reachable 100)) as (record & _ & _ & Hle & _);
    [cbn; lia | cbn; lia | exact Hr | exact Hle].
Defined.

(** C8 as stated fails: one hundred requests of a client at clock reading
    0 open a window that ends at 60000; its next request, arriving exactly
    at 60000, is still counted in that window, is rejected with 429, and
    carries [retryAfter = 0]. *)
Lemma retryAfter_counterexample :
  reachable 0 (afterRequests 100)
  ∧ rateLimits (afterRequests 100) !! "203.0.113.7"
    = Some {| count := 100; resetTime := 60000 |}
  ∧ rateLimited
      (response (handler (getFrom "203.0.113.7" "/data/obs/US-MA/recent")
                   (atTime 60000 (upstreamOk sightings)) (afterRequests 100))) 0.
Proof.
  split; [apply afterRequests_reachable|].
  split; [|split]; vm_compute; reflexivity.
Qed.

(** * Further properties of the code *)

(** ** Cache keys and lifetimes *)

(** X1. [getCacheKey] is injective, so two decoded endpoints never share a
    cache entry; every key carries the ["ebird:"] prefix. *)
Theorem getCacheKey_inj (d d' : string) :
  (getCacheKey d = getCacheKey d' → d = d')
  ∧ startsWith (getCacheKey d) "ebird:" = true.
Proof.
  split.
  - unfold getCacheKey. apply String.app_inj.
  - apply startsWith_app. by exists d.
Qed.

Lemma getCacheKey_inj_witness :
  getCacheKey "/data/obs/US-MA/recent" = getCacheKey "/data/obs/US-MA/recent"
  ∧ "/data/obs/US-MA/recent" = "/data/obs/US-MA/recent".
Proof.
  split; [reflexivity|].
  exact (proj1 (getCacheKey_inj "/data/obs/US-MA/recent" "/data/obs/US-MA/recent") eq_refl).
Defined.

(** X2. Every TTL is one of the four configured durations, hence at least
    five minutes and at most twenty-four hours, and a whole number of
    seconds.  The two allowed families without a row of their own,
    checklists and top-100, get the five-minute default. *)
Theorem getCacheTTL_range (endpoint : string) :
  (getCacheTTL endpoint = minutes 5 ∨ getCacheTTL endpoint = minutes 30
   ∨ getCacheTTL endpoint = minutes 60 ∨ getCacheTTL endpoint = minutes (24 * 60))
  ∧ 300000 ≤ getCacheTTL endpoint ≤ 86400000
  ∧ getCacheTTL endpoint mod 1000 = 0
  ∧ (startsWith endpoint "/product/checklist/" = true → getCacheTTL endpoint = minutes 5)
  ∧ (startsWith endpoint "/product/top100/" = true → getCacheTTL endpoint = minutes 5).
Proof.
  assert (Hcases : getCacheTTL endpoint = minutes 5 ∨ getCacheTTL endpoint = minutes 30
            ∨ getCacheTTL endpoint = minutes 60 ∨ getCacheTTL endpoint = minutes (24 * 60)).
  { unfold getCacheTTL. cbn [first_prefix_match CACHE_TTL].
    repeat (destruct (startsWith endpoint _); [vm_compute; tauto|]).
    vm_compute. tauto. }
  split; [exact Hcases|].
  split; [|split].
  - destruct Hcases as [->|[->|[->| ->]]]; vm_compute; split; discriminate.
  - destruct Hcases as [->|[->|[->| ->]]]; reflexivity.
  - split; intros [r ->]%startsWith_app; destruct r; reflexivity.
Qed.

Lemma getCacheTTL_range_witness :
  getCacheTTL "/product/top100/US-MA/2024/5/1" = minutes 5.
Proof.
  apply (getCacheTTL_range "/product/top100/US-MA/2024/5/1"). reflexivity.
Defined.

(** ** The sweeps *)

(** X3. [cleanupCache] keeps exactly the entries whose expiry is not before
    the sweep's clock reading, so sweeping again at the same or an earlier
    reading changes nothing more and a later sweep subsumes an earlier one.
    A sweep never changes what a lookup at the same or a later reading
    finds.  At [now = expiry] the entry is kept by the sweep although the
    lookup already treats it as a miss. *)
Theorem cleanupCache_exact now (c : gmap string CacheEntry) :
  (∀ k entry, cleanupCache now c !! k = Some entry ↔ c !! k = Some entry ∧ now ≤ expiry entry)
  ∧ (∀ now', now' ≤ now → cleanupCache now' (cleanupCache now c) = cleanupCache now c)
  ∧ (∀ now', now ≤ now' → cleanupCache now' (cleanupCache now c) = cleanupCache now' c)
  ∧ (∀ k t, now ≤ t → cacheHit (cleanupCache now c) k t = cacheHit c k t)
  ∧ (∀ k entry, c !! k = Some entry → expiry entry = now →
       cleanupCache now c !! k = Some entry ∧ cacheHit c k now = None).
Proof.
  assert (Hlook : ∀ t (m : gmap string CacheEntry) k entry,
            cleanupCache t m !! k = Some entry ↔ m !! k = Some entry ∧ t ≤ expiry entry).
  { intros t m k entry. unfold cleanupCache. rewrite map_lookup_filter_Some. cbn.
    split; intros [? ?]; (split; [done|lia]). }
  split; [apply Hlook|]. split; [|split; [|split]].
  - intros now' Hle. apply map_eq. intros k. apply option_eq. intros entry.
    rewrite !Hlook. split; [tauto|]. intros [? ?]. repeat split; try done. lia.
  - intros now' Hle. apply map_eq. intros k. apply option_eq. intros entry.
    rewrite !Hlook. split; [tauto|]. intros [? ?]. repeat split; try done. lia.
  - intros k t Hle. by apply cacheHit_cleanupCache.
  - intros k entry Hk Hexp. split.
    + apply Hlook. split; [done|lia].
    + apply cacheHit_None. intros e He. assert (e = entry) as -> by congruence. lia.
Qed.

Lemma cleanupCache_exact_witness :
  cleanupCache 300000 (cache (afterRequests 1)) !! getCacheKey "/data/obs/US-MA/recent"
    = Some {| data := sightings; expiry := 300000 |}
  ∧ cacheHit (cache (afterRequests 1)) (getCacheKey "/data/obs/US-MA/recent") 300000 = None.
Proof.
  apply (proj2 (proj2 (proj2 (proj2 (cleanupCache_exact 300000 (cache (afterRequests 1))))))).
  - vm_compute. reflexivity.
  - reflexivity.
Defined.

Lemma cleanupRateLimits_lookup now (limits : gmap string RateRecord) ip record :
  cleanupRateLimits now limits !! ip = Some record
  ↔ limits !! ip = Some record ∧ now ≤ resetTime record + 60000.
Proof.
  unfold cleanupRateLimits. rewrite map_lookup_filter_Some. cbn.
  split; intros [? ?]; (split; [done|lia]).
Qed.

Lemma checkRateLimit_after_sweep cfg now (limits : gmap string RateRecord) ip t :
  now ≤ t →
  (checkRateLimit cfg ip t (cleanupRateLimits now limits)).1
  = (checkRateLimit cfg ip t limits).1
  ∧ (checkRateLimit cfg ip t (cleanupRateLimits now limits)).2 !! ip
    = (checkRateLimit cfg ip t limits).2 !! ip.
Proof.
  intros Hle.
  destruct (limits !! ip) as [record|] eqn:Hrec.
  - destruct (Z.le_gt_cases now (resetTime record + 60000)) as [Hkeep|Hdrop].
    + assert (Hsame : cleanupRateLimits now limits !! ip = Some record)
        by (apply cleanupRateLimits_lookup; done).
      unfold checkRateLimit. rewrite Hsame, Hrec. cbn [fst snd].
      by rewrite !lookup_insert_eq.
    + assert (Hgone : cleanupRateLimits now limits !! ip = None).
      { apply eq_None_not_Some. intros [r Hr].
        apply cleanupRateLimits_lookup in Hr as [Hr ?].
        assert (r = record) as -> by congruence. lia. }
      rewrite (checkRateLimit_fresh cfg (cleanupRateLimits now limits) ip t)
        by (unfold freshAt; by rewrite Hgone).
      rewrite (checkRateLimit_fresh cfg limits ip t)
        by (unfold freshAt; rewrite Hrec; lia).
      cbn [fst snd]. by rewrite !lookup_insert_eq.
  - assert (Hgone : cleanupRateLimits now limits !! ip = None).
    { apply eq_None_not_Some. intros [r Hr].
      apply cleanupRateLimits_lookup in Hr as [Hr ?]. congruence. }
    unfold checkRateLimit. rewrite Hgone, Hrec. cbn [fst snd].
    by rewrite !lookup_insert_eq.
Qed.

(** X4. [cleanupRateLimits] keeps exactly the records whose window ended at
    most a minute before the sweep's clock reading.  What it removes is
    stale for every later call: after a sweep, [checkRateLimit] at the same
    or a later reading returns the same answer and stores the same record
    for the caller as it would have without the sweep. *)
Theorem cleanupRateLimits_transparent cfg now (limits : gmap string RateRecord) :
  (∀ ip record, cleanupRateLimits now limits !! ip = Some record
                ↔ limits !! ip = Some record ∧ now ≤ resetTime record + 60000)
  ∧ (∀ ip t, now ≤ t →
       (checkRateLimit cfg ip t (cleanupRateLimits now limits)).1
       = (checkRateLimit cfg ip t limits).1
       ∧ (checkRateLimit cfg ip t (cleanupRateLimits now limits)).2 !! ip
         = (checkRateLimit cfg ip t limits).2 !! ip).
Proof.
  split.
  - intros ip record. apply cleanupRateLimits_lookup.
  - intros ip t Hle. by apply checkRateLimit_after_sweep.
Qed.

Lemma cleanupRateLimits_transparent_witness :
  (checkRateLimit RATE_LIMIT "203.0.113.7" 200000
     (cleanupRateLimits 130000 (rateLimits (afterRequests 100)))).1
  = (checkRateLimit RATE_LIMIT "203.0.113.7" 200000 (rateLimits (afterRequests 100))).1.
Proof.
  apply (proj2 (cleanupRateLimits_transparent RATE_LIMIT 130000
                  (rateLimits (afterRequests 100)))).
  cbn. lia.
Defined.

(** ** More on the rate limiter *)

(** X5. With a non-negative window length, the reset time a call returns
    is never before the call's own clock reading, the caller's stored
    window never moves backwards, and the stored count is at least one
    whenever the previous count was not negative. *)
Theorem checkRateLimit_resetTime cfg ip now (limits : gmap string RateRecord) :
  0 ≤ windowMs cfg →
  now ≤ rc_resetTime (checkRateLimit cfg ip now limits).1
  ∧ ∃ record,
      (checkRateLimit cfg ip now limits).2 !! ip = Some record
      ∧ resetTime record = rc_resetTime (checkRateLimit cfg ip now limits).1
      ∧ ∀ old, limits !! ip = Some old →
          resetTime old ≤ resetTime record
          ∧ (0 ≤ count old → 1 ≤ count record).
Proof.
  intros HW.
  destruct (checkRateLimit_cases limits ip now) as [Hf|(old & Hold & Hnow)].
  - rewrite (checkRateLimit_fresh cfg _ _ _ Hf). cbn [fst snd rc_resetTime].
    split; [lia|]. rewrite lookup_insert_eq. eexists. split; [reflexivity|].
    split; [reflexivity|]. intros old Hold. unfold freshAt in Hf. rewrite Hold in Hf.
    cbn. lia.
  - rewrite (checkRateLimit_in_window cfg _ _ _ _ Hold Hnow). cbn [fst snd rc_resetTime].
    split; [lia|]. rewrite lookup_insert_eq. eexists. split; [reflexivity|].
    split; [reflexivity|]. intros old' Hold'. assert (old' = old) as -> by congruence.
    cbn. lia.
Qed.

Lemma checkRateLimit_resetTime_witness :
  0 ≤ windowMs RATE_LIMIT
  ∧ 61000 ≤ rc_resetTime (checkRateLimit RATE_LIMIT "203.0.113.7" 61000
                            (rateLimits (afterRequests 100))).1.
Proof.
  assert (H : 0 ≤ windowMs RATE_LIMIT) by (vm_compute; discriminate).
  split; [exact H|].
  exact (proj1 (checkRateLimit_resetTime RATE_LIMIT "203.0.113.7" 61000
                  (rateLimits (afterRequests 100)) H)).
Defined.

(** X6. Clients do not interfere: a call answers from the caller's own
    record only, and two calls of different clients give the same answers
    and leave the same map in either order. *)
Theorem checkRateLimit_clients_independent cfg ip1 ip2 t1 t2
    (limits limits' : gmap string RateRecord) :
  ip1 ≠ ip2 →
  (limits !! ip1 = limits' !! ip1 →
   (checkRateLimit cfg ip1 t1 limits).1 = (checkRateLimit cfg ip1 t1 limits').1)
  ∧ (checkRateLimit cfg ip2 t2 (checkRateLimit cfg ip1 t1 limits).2).1
    = (checkRateLimit cfg ip2 t2 limits).1
  ∧ (checkRateLimit cfg ip1 t1 (checkRateLimit cfg ip2 t2 limits).2).1
    = (checkRateLimit cfg ip1 t1 limits).1
  ∧ (checkRateLimit cfg ip2 t2 (checkRateLimit cfg ip1 t1 limits).2).2
    = (checkRateLimit cfg ip1 t1 (checkRateLimit cfg ip2 t2 limits).2).2.
Proof.
  intros Hne.
  assert (Hlocal : ∀ ip t (m m' : gmap string RateRecord),
            m !! ip = m' !! ip →
            (checkRateLimit cfg ip t m).1 = (checkRateLimit cfg ip t m').1).
  { intros ip t m m' Heq. unfold checkRateLimit. by rewrite Heq. }
  split; [apply Hlocal|]. split; [|split].
  - apply Hlocal. by apply checkRateLimit_other.
  - apply Hlocal. apply checkRateLimit_other. congruence.
  - unfold checkRateLimit at 1 3. cbn [snd].
    assert (H1 : (checkRateLimit cfg ip1 t1 limits).2 !! ip2 = limits !! ip2)
      by (by apply checkRateLimit_other).
    assert (H2 : (checkRateLimit cfg ip2 t2 limits).2 !! ip1 = limits !! ip1)
      by (apply checkRateLimit_other; congruence).
    rewrite H1, H2. unfold checkRateLimit. cbn [snd].
    by apply insert_insert_ne.
Qed.

Lemma checkRateLimit_clients_independent_witness :
  "203.0.113.7" ≠ "198.51.100.2"
  ∧ (checkRateLimit RATE_LIMIT "198.51.100.2" 7
       (checkRateLimit RATE_LIMIT "203.0.113.7" 5 ∅).2).1
    = (checkRateLimit RATE_LIMIT "198.51.100.2" 7 ∅).1.
Proof.
  assert (H : "203.0.113.7" ≠ "198.51.100.2") by discriminate.
  split; [exact H|].
  exact (proj1 (proj2 (checkRateLimit_clients_independent RATE_LIMIT
                         "203.0.113.7" "198.51.100.2" 5 7 ∅ ∅ H))).
Defined.

(** ** The handler, path by path *)

(** Case analysis along the handler's exits, in source order. *)
Ltac handler_paths :=
  unfold handler;
  destruct (String.eqb (method _) "OPTIONS") eqn:Hopt;
  [|destruct (String.eqb (method _) "GET") eqn:Hget; cbn [negb];
    [destruct (checkRateLimit _ _ _ _) as [rateCheck limits] eqn:Hrate;
     destruct (allowed rateCheck) eqn:Hallowed; cbn [negb];
     [destruct (query_endpoint _) as [|[|c0 e0]|items] eqn:Hq;
      [| |destruct (EBIRD_API_KEY _) as [[|c1 k1]|] eqn:Hkey;
          [|destruct (decodeURIComponent _) as [decoded|] eqn:Hdec;
            [destruct (isAllowed decoded) eqn:Hal; cbn [negb];
             [destruct (cacheHit _ _ _) as [entry|] eqn:Hhit;
              [|unfold proxyUpstream;
                destruct (fetch _ _ _) as [up|thrown] eqn:Hfetch;
                [destruct (ok up) eqn:Hok; cbn [negb];
                 [destruct (up_json up) as [payload|thrown] eqn:Hjson
                 |destruct (up_text up) as [errorText|thrown] eqn:Htext]
                |]]
             |]
            |]
          |]
      |]
     |]
    |]].

(** X7. Requests that are not GET never touch the state: a preflight is
    answered 200 without a body, any other method 405; neither is counted
    by the rate limiter, and neither carries rate-limit headers. *)
Theorem non_get_untouched req env s :
  method req ≠ "GET" →
  store (handler req env s) = s
  ∧ upstreamCalls (handler req env s) = []
  ∧ headers (response (handler req env s)) = corsHeaders
  ∧ (method req = "OPTIONS" →
     status (response (handler req env s)) = 200
     ∧ body (response (handler req env s)) = None)
  ∧ (method req ≠ "OPTIONS" →
     status (response (handler req env s)) = 405
     ∧ body (response (handler req env s))
       = Some (JObj [("error", JStr "Method not allowed")])).
Proof.
  intros Hm. unfold handler.
  destruct (String.eqb (method req) "OPTIONS") eqn:Hopt.
  - apply String.eqb_eq in Hopt. repeat split; done.
  - apply String.eqb_neq in Hopt.
    destruct (String.eqb (method req) "GET") eqn:Hget;
      [by apply String.eqb_eq in Hget|].
    cbn [negb]. repeat split; done.
Qed.

Lemma non_get_untouched_witness :
  method {| method := "DELETE"; req_headers := ∅;
            query_endpoint := QString "/data/obs/US-MA/recent" |} ≠ "GET"
  ∧ store (handler {| method := "DELETE"; req_headers := ∅;
                      query_endpoint := QString "/data/obs/US-MA/recent" |}
             (atTime 0 (upstreamOk sightings)) (afterRequests 3))
    = afterRequests 3.
Proof.
  assert (H : method {| method := "DELETE"; req_headers := ∅;
                        query_endpoint := QString "/data/obs/US-MA/recent" |} ≠ "GET")
    by discriminate.
  split; [exact H|].
  exact (proj1 (non_get_untouched _ (atTime 0 (upstreamOk sightings)) (afterRequests 3) H)).
Defined.

Lemma baseHeaders_cors rateCheck (r : Response) :
  headers r = rateLimitHeaders rateCheck corsHeaders → corsPermissive r.
Proof.
  intros H. unfold corsPermissive. rewrite H. unfold rateLimitHeaders.
  rewrite !lookup_insert_ne by discriminate. by repeat split.
Qed.

(** X8. Every response of the three handlers, whatever the exit, carries
    the three permissive CORS headers. *)
Theorem cors_on_every_response req env s :
  corsPermissive (response (handler req env s))
  ∧ corsPermissive (Basic.handler req env).1
  ∧ corsPermissive (Typed.handler req env).1.
Proof.
  split; [|split].
  - handler_paths; cbn [reply response proxyError];
      try (by repeat split);
      try (by apply (baseHeaders_cors rateCheck)).
    all: unfold corsPermissive, rateLimitHeaders; cbn [headers];
      rewrite !lookup_insert_ne by discriminate; by repeat split.
  - unfold Basic.handler. repeat case_match; cbn [fst Basic.proxyError];
      try (by repeat split).
    all: unfold corsPermissive; cbn [headers];
      rewrite !lookup_insert_ne by discriminate; by repeat split.
  - unfold Typed.handler. repeat case_match; cbn [fst proxyError];
      try (by repeat split).
    all: unfold corsPermissive; cbn [headers];
      rewrite !lookup_insert_ne by discriminate; by repeat split.
Qed.

(** X9. Every response to a GET, whatever the exit, carries the three
    rate-limit headers: the configured limit of 100, the [remaining] value
    the rate check returned, and its reset time in whole seconds, rounded
    up. *)
Theorem rate_limit_headers_on_get req env s :
  method req = "GET" →
  headers (response (handler req env s)) !! "X-RateLimit-Limit" = Some (JNum 100)
  ∧ headers (response (handler req env s)) !! "X-RateLimit-Remaining"
    = Some (JNum (remaining (rateCheckOf req env s)))
  ∧ headers (response (handler req env s)) !! "X-RateLimit-Reset"
    = Some (JNum (ceilDiv (rc_resetTime (rateCheckOf req env s)) 1000)).
Proof.
  intros Hm. unfold rateCheckOf, clientKey.
  handler_paths; try (rewrite Hm in Hopt; discriminate);
    try (rewrite Hm in Hget; discriminate).
  all: cbn [reply response proxyError headers fst];
    unfold rateLimitHeaders;
    rewrite ?(lookup_insert_ne _ "X-Cache"), ?(lookup_insert_ne _ "Cache-Control")
      by discriminate;
    rewrite ?(lookup_insert_ne _ "X-Cache"), ?(lookup_insert_ne _ "Cache-Control")
      by discriminate.
  all: split; [|split];
    [ rewrite !lookup_insert_ne by discriminate; apply lookup_insert_eq
    | rewrite !lookup_insert_ne by discriminate; apply lookup_insert_eq
    | apply lookup_insert_eq ].
Qed.

Lemma rate_limit_headers_on_get_witness :
  method (getFrom "203.0.113.7" "/unsafe/path") = "GET"
  ∧ headers (response (handler (getFrom "203.0.113.7" "/unsafe/path")
                         (atTime 0 (upstreamOk sightings)) emptyStore))
      !! "X-RateLimit-Limit" = Some (JNum 100).
Proof.
  split; [reflexivity|].
  exact (proj1 (rate_limit_headers_on_get (getFrom "203.0.113.7" "/unsafe/path")
                  (atTime 0 (upstreamOk sightings)) emptyStore eq_refl)).
Defined.

(** ** What reaches the upstream *)

Lemma append_assoc (a b c : string) : (a +:+ b) +:+ c = a +:+ (b +:+ c).
Proof.
  induction a as [|x a IH]; [reflexivity|].
  rewrite !append_cons. by rewrite IH.
Qed.

Lemma isAllowed_prefix (decoded : string) :
  isAllowed decoded = true
  ↔ ∃ prefix rest, prefix ∈ ALLOWED_PATHS ∧ decoded = prefix +:+ rest.
Proof.
  unfold isAllowed. rewrite existsb_exists. split.
  - intros (prefix & Hin%list_elem_of_In & [rest ->]%startsWith_app). eauto.
  - intros (prefix & rest & Hin%list_elem_of_In & ->).
    exists prefix. split; [done|]. apply startsWith_app. eauto.
Qed.

(** X10. The allowlist is a pure prefix test: a decoded endpoint is accepted
    exactly when it is one of the seven prefixes followed by anything at
    all.  Nothing after the prefix is inspected, so an accepted endpoint
    stays accepted whatever is appended to it, and the empty endpoint is
    refused. *)
Theorem isAllowed_exactly_prefix (decoded : string) :
  (isAllowed decoded = true
   ↔ ∃ prefix rest, prefix ∈ ALLOWED_PATHS ∧ decoded = prefix +:+ rest)
  ∧ (∀ suffix, isAllowed decoded = true → isAllowed (decoded +:+ suffix) = true)
  ∧ isAllowed "" = false.
Proof.
  split; [apply isAllowed_prefix|]. split; [|reflexivity].
  intros suffix (prefix & rest & Hin & ->)%isAllowed_prefix.
  apply isAllowed_prefix. exists prefix, (rest +:+ suffix).
  split; [done|]. apply append_assoc.
Qed.

Lemma isAllowed_exactly_prefix_witness :
  isAllowed "/ref/hotspot/" = true
  ∧ isAllowed ("/ref/hotspot/" +:+ "../../admin?x=1") = true.
Proof.
  split; [reflexivity|].
  exact (proj1 (proj2 (isAllowed_exactly_prefix "/ref/hotspot/")) "../../admin?x=1" eq_refl).
Defined.

(** X11. An invocation issues at most one upstream call, and only for a
    GET that the rate limiter admitted: the URL is the fixed base followed
    by the decoded endpoint, which starts with an allowed prefix, and the
    token is the configured, non-empty credential. *)
Theorem upstream_calls_allowlisted req env s :
  upstreamCalls (handler req env s) = []
  ∨ ∃ endpoint prefix rest apiKey,
      upstreamCalls (handler req env s)
      = [("https://api.ebird.org/v2" +:+ prefix +:+ rest, apiKey)]
      ∧ prefix ∈ ALLOWED_PATHS
      ∧ query_endpoint req = QString endpoint
      ∧ decodeURIComponent endpoint = Some (prefix +:+ rest)
      ∧ EBIRD_API_KEY env = Some apiKey ∧ apiKey ≠ ""
      ∧ method req = "GET"
      ∧ allowed (rateCheckOf req env s) = true.
Proof.
  destruct (upstreamCalls (handler req env s)) as [|call calls] eqn:Hcalls; [by left|].
  right.
  destruct (handler_calls_inv req env s) as (decoded & apiKey & Hreach & _ & Heq);
    [by rewrite Hcalls|].
  rewrite <- Hcalls, Heq, proxyUpstream_calls.
  destruct Hreach as (endpoint & (Hm & Hal & Hq & _ & Hk & Hne) & Hdec & Hallowed).
  apply isAllowed_prefix in Hallowed as (prefix & rest & Hin & ->).
  by exists endpoint, prefix, rest, apiKey.
Qed.

(** ** Failures of the proxy block *)

(** X12. When the upstream call fails without a usable answer (the fetch
    throws, a success answer does not parse as JSON, or the body of an
    error answer cannot be read), the response is 500 with the generic
    error and the thrown message; nothing is cached, and the upstream's
    status, if there was one, is not forwarded. *)
Theorem proxy_failures_are_500 req env s decoded apiKey t :
  upstreamCalls (handler req env s) = [(upstreamUrl decoded, apiKey)] →
  (fetch env (upstreamUrl decoded) apiKey = Threw t
   ∨ ∃ up, fetch env (upstreamUrl decoded) apiKey = Returned up
           ∧ (ok up = true ∧ up_json up = Threw t
              ∨ ok up = false ∧ up_text up = Threw t)) →
  status (response (handler req env s)) = 500
  ∧ body (response (handler req env s))
    = Some (JObj [("error", JStr "Failed to fetch from eBird");
                  ("message", JStr (errorMessage t))])
  ∧ store (handler req env s) = counted req env s
  ∧ cache (store (handler req env s)) = cache s.
Proof.
  intros Hcalls Hfail.
  destruct (handler_calls_inv req env s) as (decoded0 & key & Hreach & Hmiss & Heq);
    [by rewrite Hcalls|].
  rewrite Heq, proxyUpstream_calls in Hcalls.
  injection Hcalls as Hd ->. change (decoded0 = decoded) in Hd. subst decoded0.
  rewrite Heq. unfold proxyUpstream. fold (upstreamUrl decoded).
  destruct Hfail as [->|(up & -> & [[-> ->]|[-> ->]])]; by repeat split.
Qed.

Lemma proxy_failures_are_500_witness :
  upstreamCalls (handler (getFrom "203.0.113.7" "/data/obs/US-MA/recent")
                   (atTime 0 (Threw (ThrownError "fetch failed"))) emptyStore)
    = [(upstreamUrl "/data/obs/US-MA/recent", "test-token")]
  ∧ status (response (handler (getFrom "203.0.113.7" "/data/obs/US-MA/recent")
                        (atTime 0 (Threw (ThrownError "fetch failed"))) emptyStore))
    = 500.
Proof.
  assert (H : upstreamCalls (handler (getFrom "203.0.113.7" "/data/obs/US-MA/recent")
                (atTime 0 (Threw (ThrownError "fetch failed"))) emptyStore)
              = [(upstreamUrl "/data/obs/US-MA/recent", "test-token")])
    by (vm_compute; reflexivity).
  split; [exact H|].
  exact (proj1 (proxy_failures_are_500 _ _ _ _ _ (ThrownError "fetch failed") H
                  (or_introl eq_refl))).
Defined.

(** ** The guards behind the rate limiter *)

(** X13. For a GET that the rate limiter admits: a missing, empty or
    repeated endpoint parameter is answered 400, whatever the credential
    configuration; a non-empty endpoint with a missing or empty credential
    is answered 500, whatever the endpoint (not even its encoding or its
    path is looked at).  Both requests have been counted, and neither causes
    an upstream call or touches the cache. *)
Theorem guards_behind_rate_limiter req env s :
  method req = "GET" →
  allowed (rateCheckOf req env s) = true →
  ((∀ endpoint, query_endpoint req = QString endpoint → endpoint = "") →
   status (response (handler req env s)) = 400
   ∧ body (response (handler req env s))
     = Some (JObj [("error", JStr "Missing endpoint parameter");
                   ("example", JStr "/api/ebird?endpoint=/data/obs/US-MA/recent")])
   ∧ store (handler req env s) = counted req env s
   ∧ upstreamCalls (handler req env s) = [])
  ∧ (∀ endpoint, query_endpoint req = QString endpoint → endpoint ≠ "" →
     (∀ apiKey, EBIRD_API_KEY env = Some apiKey → apiKey = "") →
     status (response (handler req env s)) = 500
     ∧ body (response (handler req env s))
       = Some (JObj [("error", JStr "Server configuration error");
                     ("hint", JStr "EBIRD_API_KEY environment variable is not set")])
     ∧ store (handler req env s) = counted req env s
     ∧ upstreamCalls (handler req env s) = []).
Proof.
  intros Hm Hadm. unfold rateCheckOf, counted, clientKey in *.
  unfold handler. rewrite Hm. cbn [String.eqb negb].
  destruct (checkRateLimit _ _ _ _) as [rateCheck limits].
  cbn [fst snd] in *. rewrite Hadm. cbn [negb]. split.
  - intros Hq. destruct (query_endpoint req) as [|[|c e]|items]; try by repeat split.
    discriminate (Hq _ eq_refl).
  - intros endpoint -> [c [e ->]]%truthy_nonempty Hk.
    destruct (EBIRD_API_KEY env) as [[|c' k]|]; try by repeat split.
    discriminate (Hk _ eq_refl).
Qed.

Lemma guards_behind_rate_limiter_witness :
  method {| method := "GET"; req_headers := ∅; query_endpoint := QArray ["/data/obs/a"] |}
    = "GET"
  ∧ status (response (handler {| method := "GET"; req_headers := ∅;
                                 query_endpoint := QArray ["/data/obs/a"] |}
                        (atTime 0 (upstreamOk sightings)) emptyStore)) = 400.
Proof.
  split; [reflexivity|].
  refine (proj1 (proj1 (guards_behind_rate_limiter
    {| method := "GET"; req_headers := ∅; query_endpoint := QArray ["/data/obs/a"] |}
    (atTime 0 (upstreamOk sightings)) emptyStore eq_refl eq_refl) _)).
  intros endpoint H. discriminate H.
Defined.

(** ** Sweeps and frames at the level of the handler *)

(** X14. A sweep is not observable: a state swept at clock readings not
    after the request's own readings yields the same response and the same
    upstream calls as the unswept state. *)
Theorem sweep_unobservable req env s cacheNow limitsNow :
  cacheNow ≤ now_cacheCheck env →
  limitsNow ≤ now_checkRateLimit env →
  response (handler req env (swept cacheNow limitsNow s)) = response (handler req env s)
  ∧ upstreamCalls (handler req env (swept cacheNow limitsNow s))
    = upstreamCalls (handler req env s).
Proof.
  intros Hc Hl. unfold handler, swept. cbn [rateLimits cache].
  destruct (String.eqb (method req) "OPTIONS"); [by split|].
  destruct (negb (String.eqb (method req) "GET")); [split; reflexivity|].
  pose proof (proj1 (checkRateLimit_after_sweep RATE_LIMIT limitsNow (rateLimits s)
                       (clientIPOf (req_headers req)) (now_checkRateLimit env) Hl)) as Hsame.
  destruct (checkRateLimit _ _ _ (cleanupRateLimits _ _)) as [rateCheck' limits'].
  destruct (checkRateLimit _ _ _ (rateLimits s)) as [rateCheck limits].
  cbn [fst] in Hsame. subst rateCheck'.
  destruct (negb (allowed rateCheck)); [split; reflexivity|].
  destruct (query_endpoint req) as [|[|? ?]|]; try (split; reflexivity).
  destruct (EBIRD_API_KEY env) as [[|? ?]|]; try (split; reflexivity).
  destruct (decodeURIComponent _) as [decoded|]; [|split; reflexivity].
  destruct (negb (isAllowed decoded)); [split; reflexivity|]. cbn [cache].
  rewrite (cacheHit_cleanupCache _ _ _ _ Hc).
  destruct (cacheHit (cache s) (getCacheKey decoded) _); [split; reflexivity|].
  unfold proxyUpstream. destruct (fetch env _ _) as [up|]; [|split; reflexivity].
  destruct (negb (ok up)); [destruct (up_text up) | destruct (up_json up)];
    split; reflexivity.
Qed.

Lemma sweep_unobservable_witness :
  response (handler (getFrom "203.0.113.7" "/data/obs/US-MA/recent")
              (atTime 400000 (upstreamOk JNull)) (swept 350000 350000 (afterRequests 100)))
  = response (handler (getFrom "203.0.113.7" "/data/obs/US-MA/recent")
                (atTime 400000 (upstreamOk JNull)) (afterRequests 100)).
Proof.
  apply (sweep_unobservable (getFrom "203.0.113.7" "/data/obs/US-MA/recent")
           (atTime 400000 (upstreamOk JNull)) (afterRequests 100) 350000 350000);
    cbn; lia.
Defined.

(** What an invocation can leave under a cache key: the entry that was
    there, the entry it has just fetched for its own decoded endpoint, or
    nothing, when the sweep ran and removed an expired entry. *)
Lemma handler_cache_lookup req env s k :
  cache (store (handler req env s)) !! k = cache s !! k
  ∨ (∃ decoded apiKey payload,
       reachesCache req env s decoded apiKey
       ∧ k = getCacheKey decoded
       ∧ cache (store (handler req env s)) !! k
         = Some {| data := payload;
                   expiry := now_cacheStore env + getCacheTTL decoded |})
  ∨ (sweepDue env = true
     ∧ cache (store (handler req env s)) !! k = None
     ∧ (∀ entry, cache s !! k = Some entry →
          expiry entry < now_cleanupCache env
          ∨ ∃ decoded apiKey, reachesCache req env s decoded apiKey
                              ∧ k = getCacheKey decoded)).
Proof.
  destruct (handler_guards req env s)
    as [H|[H|[[_ H]|[H|[H|(endpoint & apiKey & Hv)]]]]];
    try (rewrite H; by left).
  rewrite (handler_reachesValidator _ _ _ _ _ Hv).
  destruct (decodeURIComponent endpoint) as [decoded|] eqn:Hdec; [|by left].
  destruct (isAllowed decoded) eqn:Hal; [|by left].
  assert (Hreach : reachesCache req env s decoded apiKey) by (by exists endpoint).
  destruct (cacheHit _ _ _); [by left|].
  unfold proxyUpstream. destruct (fetch env _ _) as [up|]; [|by left].
  destruct (ok up); cbn [negb]; [|destruct (up_text up); by left].
  destruct (up_json up) as [payload|]; [|by left].
  cbn [store counted cache].
  set (entry := {| data := payload; expiry := now_cacheStore env + getCacheTTL decoded |}).
  destruct (sweepDue env) eqn:Hsweep; cbn [cache].
  - rewrite cleanupCache_lookup.
    destruct (decide (k = getCacheKey decoded)) as [->|Hne].
    + rewrite lookup_insert_eq.
      destruct (expiry entry <? now_cleanupCache env) eqn:Hexp.
      * right. right. repeat split. intros e _. right. by exists decoded, apiKey.
      * right. left. by exists decoded, apiKey, payload.
    + rewrite lookup_insert_ne by done.
      destruct (cache s !! k) as [e|] eqn:Hk; [|by left].
      destruct (expiry e <? now_cleanupCache env) eqn:Hexp; [|by left].
      right. right. repeat split. intros e' [= <-]. left. by apply Z.ltb_lt.
  - destruct (decide (k = getCacheKey decoded)) as [->|Hne].
    + rewrite lookup_insert_eq. right. left. by exists decoded, apiKey, payload.
    + rewrite lookup_insert_ne by done. by left.
Qed.

(** X15. A request leaves the cache entries of other endpoints alone: an
    entry stored under a key that is not the key of the request's own
    decoded endpoint is still there afterwards, unchanged, unless the sweep
    ran and the entry had expired by the sweep's clock reading. *)
Theorem handler_keeps_other_entries req env s k entry :
  cache s !! k = Some entry →
  (∀ decoded apiKey, reachesCache req env s decoded apiKey → k ≠ getCacheKey decoded) →
  cache (store (handler req env s)) !! k = Some entry
  ∨ (sweepDue env = true
     ∧ expiry entry < now_cleanupCache env
     ∧ cache (store (handler req env s)) !! k = None).
Proof.
  intros Hk Hother.
  destruct (handler_cache_lookup req env s k)
    as [H|[(decoded & apiKey & payload & Hreach & -> & _)|(Hsweep & Hnone & Hwhy)]].
  - left. congruence.
  - by destruct (Hother _ _ Hreach).
  - right. destruct (Hwhy _ Hk) as [Hexp|(decoded & apiKey & Hreach & ->)];
      [done|by destruct (Hother _ _ Hreach)].
Qed.

Lemma handler_keeps_other_entries_witness :
  cache (afterRequests 1) !! getCacheKey "/data/obs/US-MA/recent"
    = Some {| data := sightings; expiry := 300000 |}
  ∧ cache (store (handler (getFrom "198.51.100.2" "/ref/taxonomy/ebird")
                    (sweepingAt 1000 (upstreamOk JNull)) (afterRequests 1)))
      !! getCacheKey "/data/obs/US-MA/recent"
    = Some {| data := sightings; expiry := 300000 |}.
Proof.
  assert (H : cache (afterRequests 1) !! getCacheKey "/data/obs/US-MA/recent"
              = Some {| data := sightings; expiry := 300000 |})
    by (vm_compute; reflexivity).
  split; [exact H|].
  destruct (handler_keeps_other_entries (getFrom "198.51.100.2" "/ref/taxonomy/ebird")
              (sweepingAt 1000 (upstreamOk JNull)) (afterRequests 1) _ _ H)
    as [Hkept|(_ & Hexp & _)].
  - intros decoded apiKey (endpoint & (_ & _ & [= <-] & _) & [= <-] & _). discriminate.
  - exact Hkept.
  - cbn in Hexp. lia.
Defined.

(** ** Invariants of reachable states *)

(** X16. In every state reached from a cold start: every rate record has
    counted at least one request, no window ends later than one window
    length after the last rate-check reading, and every cache key is the
    key of a decoded endpoint that passes the allowlist. *)
Theorem reachable_invariants t s :
  reachable t s →
  countsPositive (rateLimits s)
  ∧ windowsBounded t (rateLimits s)
  ∧ keysAllowed (cache s).
Proof.
  intros Hreach. split; [|split; [by apply reachable_windowsBounded|]].
  - induction Hreach as [t|t s req env Hreach IH Hle].
    + intros ip record. cbn. by rewrite lookup_empty.
    + intros ip record [Hold|Hnew]%handler_rateLimits; [by apply (IH ip)|].
      revert Hnew. unfold counted. cbn [rateLimits].
      destruct (checkRateLimit_cases (rateLimits s) (clientKey req) (now_checkRateLimit env))
        as [Hf|(old & Hold & Hnow)].
      * rewrite (checkRateLimit_fresh RATE_LIMIT _ _ _ Hf). cbn [snd].
        destruct (decide (ip = clientKey req)) as [->|Hne].
        -- rewrite lookup_insert_eq. intros [= <-]. cbn. lia.
        -- rewrite lookup_insert_ne by done. apply IH.
      * rewrite (checkRateLimit_in_window RATE_LIMIT _ _ _ _ Hold Hnow). cbn [snd].
        destruct (decide (ip = clientKey req)) as [->|Hne].
        -- rewrite lookup_insert_eq. intros [= <-]. cbn [count].
           specialize (IH _ _ Hold). lia.
        -- rewrite lookup_insert_ne by done. apply IH.
  - induction Hreach as [t|t s req env Hreach IH Hle].
    + intros k entry. cbn. by rewrite lookup_empty.
    + intros k entry Hk.
      destruct (handler_cache_lookup req env s k)
        as [H|[(decoded & apiKey & payload & (e & _ & _ & Hal) & -> & _)|(_ & Hnone & _)]].
      * rewrite H in Hk. by apply (IH k entry).
      * by exists decoded.
      * congruence.
Qed.

Lemma reachable_invariants_witness :
  reachable 0 (afterRequests 100)
  ∧ countsPositive (rateLimits (afterRequests 100))
  ∧ keysAllowed (cache (afterRequests 100)).
Proof.
  split; [apply afterRequests_reachable|].
  pose proof (reachable_invariants 0 (afterRequests 100) (afterRequests_reachable 100))
    as (Hc & _ & Hk).
  exact (conj Hc Hk).
Defined.

(** ** Status codes *)

(** X17. The status of a response is 200, 400, 403, 405, 429 or 500, or
    else the non-success status of an upstream answer whose body text was
    read.  In particular no success status other than 200 is ever sent. *)
Theorem handler_statuses req env s :
  (status (response (handler req env s)) ∈ [200; 400; 403; 405; 429; 500]
   ∨ ∃ decoded apiKey up errorText,
       fetch env (upstreamUrl decoded) apiKey = Returned up
       ∧ ok up = false
       ∧ up_text up = Returned errorText
       ∧ response (handler req env s)
         = passthrough (baseHeaders req env s) (up_status up) errorText)
  ∧ (200 ≤ status (response (handler req env s)) ≤ 299 →
     status (response (handler req env s)) = 200).
Proof.
  assert (Hmain :
    status (response (handler req env s)) ∈ [200; 400; 403; 405; 429; 500]
    ∨ ∃ decoded apiKey up errorText,
        fetch env (upstreamUrl decoded) apiKey = Returned up
        ∧ ok up = false
        ∧ up_text up = Returned errorText
        ∧ response (handler req env s)
          = passthrough (baseHeaders req env s) (up_status up) errorText).
  { destruct (handler_guards req env s)
      as [H|[H|[[_ H]|[H|[H|(endpoint & apiKey & Hv)]]]]];
      try (rewrite H; left; cbn [reply response status]; set_solver).
    rewrite (handler_reachesValidator _ _ _ _ _ Hv).
    destruct (decodeURIComponent endpoint) as [decoded|];
      [|left; cbn [reply response status]; set_solver].
    destruct (isAllowed decoded); [|left; cbn [reply response status]; set_solver].
    destruct (cacheHit _ _ _); [left; cbn [reply response status]; set_solver|].
    unfold proxyUpstream. fold (upstreamUrl decoded).
    destruct (fetch env _ _) as [up|] eqn:Hfetch;
      [|left; cbn [proxyError response status]; set_solver].
    destruct (ok up) eqn:Hok; cbn [negb].
    - destruct (up_json up); left; cbn [proxyError response status]; set_solver.
    - destruct (up_text up) as [errorText|] eqn:Htext;
        [|left; cbn [proxyError response status]; set_solver].
      right. by exists decoded, apiKey, up, errorText. }
  split; [exact Hmain|].
  intros Hrange. destruct Hmain as [Hin|(decoded & apiKey & up & errorText & _ & Hok & _ & Heq)].
  - rewrite !elem_of_cons in Hin. rewrite elem_of_nil in Hin.
    destruct Hin as [?|[?|[?|[?|[?|[?|[]]]]]]]; lia.
  - rewrite Heq in Hrange |- *. cbn [passthrough status] in *.
    unfold ok, between in Hok. apply andb_false_iff in Hok as [?%Z.leb_gt|?%Z.leb_gt]; lia.
Qed.

Lemma handler_statuses_witness :
  status (response (handler (getFrom "203.0.113.7" "/data/obs/US-MA/recent")
                      (atTime 0 (upstreamOk sightings)) emptyStore)) = 200.
Proof.
  apply (handler_statuses (getFrom "203.0.113.7" "/data/obs/US-MA/recent")
           (atTime 0 (upstreamOk sightings)) emptyStore).
  vm_compute. split; discriminate.
Defined.

(** ** The three handlers compared *)

(** X18. The enhanced handler is the TypeScript proxy with a rate limiter
    and a cache in front: whenever the rate limiter admits the request and
    the cache has nothing live to serve, both answer with the same status
    and the same body and issue the same upstream calls. *)
Theorem enhanced_refines_typed req env s :
  allowed (rateCheckOf req env s) = true →
  (∀ k, cacheHit (cache s) k (now_cacheCheck env) = None) →
  status (response (handler req env s)) = status (Typed.handler req env).1
  ∧ body (response (handler req env s)) = body (Typed.handler req env).1
  ∧ upstreamCalls (handler req env s) = (Typed.handler req env).2.
Proof.
  intros Hadm Hmiss. unfold rateCheckOf, clientKey in Hadm.
  unfold handler, Typed.handler.
  destruct (String.eqb (method req) "OPTIONS"); [by repeat split|].
  destruct (negb (String.eqb (method req) "GET")); [by repeat split|].
  destruct (checkRateLimit _ _ _ _) as [rateCheck limits].
  cbn [fst] in Hadm. rewrite Hadm. cbn [negb].
  destruct (query_endpoint req) as [|[|? ?]|]; try by repeat split.
  destruct (EBIRD_API_KEY env) as [[|? ?]|]; try by repeat split.
  destruct (decodeURIComponent _) as [decoded|]; [|by repeat split].
  change (existsb (startsWith decoded) Typed.ALLOWED_PATHS) with (isAllowed decoded).
  destruct (isAllowed decoded); cbn [negb]; [|by repeat split].
  cbn [cache]. rewrite Hmiss. unfold proxyUpstream.
  destruct (fetch env _ _) as [up|]; [|by repeat split].
  destruct (ok up); cbn [negb];
    [destruct (up_json up) | destruct (up_text up)]; by repeat split.
Qed.

Lemma enhanced_refines_typed_witness :
  allowed (rateCheckOf (getFrom "203.0.113.7" "/ref/region/info/US-MA")
             (atTime 0 (upstreamFails 404 "Not found")) emptyStore) = true
  ∧ body (response (handler (getFrom "203.0.113.7" "/ref/region/info/US-MA")
                      (atTime 0 (upstreamFails 404 "Not found")) emptyStore))
    = body (Typed.handler (getFrom "203.0.113.7" "/ref/region/info/US-MA")
              (atTime 0 (upstreamFails 404 "Not found"))).1.
Proof.
  split; [reflexivity|].
  refine (proj1 (proj2 (enhanced_refines_typed
    (getFrom "203.0.113.7" "/ref/region/info/US-MA")
    (atTime 0 (upstreamFails 404 "Not found")) emptyStore eq_refl _))).
  intros k. reflexivity.
Defined.

(** X19. The JavaScript and the TypeScript proxies answer with the same
    status and issue the same upstream calls for every request whose
    endpoint parameter is absent or a single string.  They part on a
    repeated parameter: the TypeScript proxy answers 400 without an
    upstream call, the JavaScript proxy goes on with the values joined by
    commas. *)
Theorem basic_agrees_with_typed req env :
  (isArrayQuery (query_endpoint req) = false →
   status (Basic.handler req env).1 = status (Typed.handler req env).1
   ∧ (Basic.handler req env).2 = (Typed.handler req env).2)
  ∧ (∀ items, method req = "GET" → query_endpoint req = QArray items →
     status (Typed.handler req env).1 = 400
     ∧ (Typed.handler req env).2 = []
     ∧ ∀ apiKey decoded,
         EBIRD_API_KEY env = Some apiKey → apiKey ≠ "" →
         decodeURIComponent (String.concat "," items) = Some decoded →
         isAllowed decoded = true →
         (Basic.handler req env).2 = [(upstreamUrl decoded, apiKey)]).
Proof.
  split.
  - intros Hq. unfold Basic.handler, Typed.handler.
    destruct (String.eqb (method req) "OPTIONS"); [by split|].
    destruct (negb (String.eqb (method req) "GET")); [by split|].
    destruct (query_endpoint req) as [|[|c e]|items]; [by split..| |discriminate].
    cbn [Basic.queryTruthy Basic.queryToString truthy negb].
    destruct (EBIRD_API_KEY env) as [[|? ?]|]; try by split.
    destruct (decodeURIComponent _) as [decoded|]; [|by split].
    change (existsb (startsWith decoded) Typed.ALLOWED_PATHS)
      with (existsb (startsWith decoded) Basic.allowedPaths).
    destruct (existsb _ _); cbn [negb]; [|by split].
    destruct (fetch env _ _) as [up|]; [|by split].
    destruct (ok up); cbn [negb];
      [destruct (up_json up) | destruct (up_text up)]; by split.
  - intros items Hm Hq. unfold Typed.handler, Basic.handler. rewrite Hm, Hq.
    cbn [String.eqb negb Basic.queryTruthy Basic.queryToString].
    split; [reflexivity|]. split; [reflexivity|].
    intros apiKey decoded -> [c [k ->]]%truthy_nonempty -> Hal.
    unfold isAllowed in Hal.
    change (existsb (startsWith decoded) Basic.allowedPaths)
      with (existsb (startsWith decoded) ALLOWED_PATHS).
    rewrite Hal. cbn [negb]. fold (upstreamUrl decoded).
    destruct (fetch env _ _) as [up|]; [|reflexivity].
    destruct (ok up); cbn [negb];
      [destruct (up_json up) | destruct (up_text up)]; reflexivity.
Qed.

Lemma basic_agrees_with_typed_witness :
  (Basic.handler {| method := "GET"; req_headers := ∅;
                    query_endpoint := QArray ["/data/obs/US-MA"; "recent"] |}
     (atTime 0 (upstreamOk sightings))).2
  = [(upstreamUrl "/data/obs/US-MA,recent", "test-token")].
Proof.
  refine (proj2 (proj2 (proj2 (basic_agrees_with_typed
    {| method := "GET"; req_headers := ∅;
       query_endpoint := QArray ["/data/obs/US-MA"; "recent"] |}
    (atTime 0 (upstreamOk sightings))) ["/data/obs/US-MA"; "recent"] eq_refl eq_refl))
    "test-token" "/data/obs/US-MA,recent" eq_refl _ eq_refl eq_refl).
  discriminate.
Defined.

(** ** The client key *)

Lemma splitFirst_no_comma (s : string) : ","%char ∉ chars (splitFirst s).
Proof.
  induction s as [|c s IH]; cbn [splitFirst chars]; [apply not_elem_of_nil|].
  destruct (Ascii.eqb c ",") eqn:Hc; cbn [chars]; [apply not_elem_of_nil|].
  apply Ascii.eqb_neq in Hc. rewrite not_elem_of_cons. split; [congruence|done].
Qed.

Lemma splitFirst_id (s : string) : ","%char ∉ chars s → splitFirst s = s.
Proof.
  induction s as [|c s IH]; cbn [splitFirst chars]; [done|].
  rewrite not_elem_of_cons. intros [Hc Hs].
  destruct (Ascii.eqb c ",") eqn:Heq; [apply Ascii.eqb_eq in Heq; congruence|].
  by rewrite IH.
Qed.

Lemma chars_trimStart (s : string) c : c ∈ chars (trimStart s) → c ∈ chars s.
Proof.
  induction s as [|d s IH]; cbn [trimStart chars]; [done|].
  destruct (isWhiteSpace d); [|done]. intros H%IH. apply elem_of_cons. by right.
Qed.

Lemma chars_trimEnd (s : string) c : c ∈ chars (trimEnd s) → c ∈ chars s.
Proof.
  induction s as [|d s IH]; cbn [trimEnd chars]; [done|].
  destruct (trimEnd s) as [|a b] eqn:E.
  - destruct (isWhiteSpace d); cbn [chars]; [by intros ?%elem_of_nil|].
    intros ->%list_elem_of_singleton. apply elem_of_cons. by left.
  - change (chars (String d (String a b))) with (d :: chars (String a b)).
    rewrite !elem_of_cons. intros [->|H]; [by left|right; by apply IH].
Qed.

Lemma trimStart_clean (s : string) : startsClean (trimStart s).
Proof.
  induction s as [|c s IH]; cbn [trimStart]; [done|].
  destruct (isWhiteSpace c) eqn:Hc; [done|exact Hc].
Qed.

Lemma trimStart_id (s : string) : startsClean s → trimStart s = s.
Proof. destruct s as [|c s]; cbn; [done|]. by intros ->. Qed.

Lemma trimEnd_clean (s : string) : startsClean s → startsClean (trimEnd s).
Proof.
  destruct s as [|c s]; cbn [trimEnd startsClean]; [done|]. intros Hc.
  destruct (trimEnd s); [rewrite Hc|]; exact Hc.
Qed.

Lemma trimEnd_idem (s : string) : trimEnd (trimEnd s) = trimEnd s.
Proof.
  induction s as [|c s IH]; cbn [trimEnd]; [done|].
  destruct (trimEnd s) as [|a b] eqn:E.
  - destruct (isWhiteSpace c) eqn:Hc; cbn [trimEnd]; [done|]. by rewrite Hc.
  - change (trimEnd (String c (String a b)))
      with (match trimEnd (String a b) with
            | EmptyString => if isWhiteSpace c then EmptyString else String c EmptyString
            | String x y => String c (String x y)
            end).
    by rewrite IH.
Qed.

Lemma trim_idem (s : string) : trim (trim s) = trim s.
Proof.
  unfold trim.
  rewrite (trimStart_id (trimEnd (trimStart s)))
    by (apply trimEnd_clean, trimStart_clean).
  apply trimEnd_idem.
Qed.

(** X20. The client key is never empty.  When the first comma-separated
    segment of [x-forwarded-for], trimmed, is not empty, it is the key: it
    holds no comma, trimming it again changes nothing, and deriving the key
    from it again gives the same key, so later hops and surrounding white
    space never split one client over several records.  When that segment
    is empty or the header is absent, the key is a non-empty [x-real-ip],
    else ["unknown"]. *)
Theorem clientIPOf_key (hs : gmap string string) :
  clientIPOf hs ≠ ""
  ∧ (∀ v, hs !! "x-forwarded-for" = Some v → trim (splitFirst v) ≠ "" →
       clientIPOf hs = trim (splitFirst v)
       ∧ (","%char ∉ chars (clientIPOf hs))
       ∧ trim (clientIPOf hs) = clientIPOf hs
       ∧ clientIPOf (<["x-forwarded-for" := clientIPOf hs]> hs) = clientIPOf hs)
  ∧ ((∀ v, hs !! "x-forwarded-for" = Some v → trim (splitFirst v) = "") →
       (∀ r, hs !! "x-real-ip" = Some r → r ≠ "" → clientIPOf hs = r)
       ∧ ((∀ r, hs !! "x-real-ip" = Some r → r = "") → clientIPOf hs = "unknown")).
Proof.
  assert (Hforwarded : ∀ (m : gmap string string) v,
            m !! "x-forwarded-for" = Some v → trim (splitFirst v) ≠ "" →
            clientIPOf m = trim (splitFirst v)).
  { intros m v Hv [c [r Hr]]%truthy_nonempty. unfold clientIPOf. rewrite Hv, Hr. done. }
  split; [|split].
  - unfold clientIPOf.
    destruct (hs !! "x-forwarded-for") as [v|];
      [destruct (trim (splitFirst v))|]; cbn [truthy]; try done;
      destruct (hs !! "x-real-ip") as [[|c r]|]; done.
  - intros v Hv Hne. rewrite (Hforwarded hs v Hv Hne).
    assert (Hcomma : ","%char ∉ chars (trim (splitFirst v))).
    { intros H. unfold trim in H. apply chars_trimEnd, chars_trimStart in H.
      by apply (splitFirst_no_comma v). }
    split; [done|]. split; [done|]. split; [apply trim_idem|].
    rewrite (Hforwarded _ (trim (splitFirst v))); [| apply lookup_insert_eq|];
      rewrite (splitFirst_id _ Hcomma), trim_idem; done.
  - intros Hempty.
    assert (Hnone : (match hs !! "x-forwarded-for" with
                     | Some v => trim (splitFirst v)
                     | None => ""
                     end) = "").
    { destruct (hs !! "x-forwarded-for") as [v|]; [by apply Hempty|done]. }
    unfold clientIPOf. rewrite Hnone. cbn [truthy]. split.
    + intros r -> [c [r' ->]]%truthy_nonempty. done.
    + intros Hr. destruct (hs !! "x-real-ip") as [[|c r]|]; [done| |done].
      discriminate (Hr _ eq_refl).
Qed.

Lemma clientIPOf_key_witness :
  ({["x-forwarded-for" := " 203.0.113.7 , 10.0.0.1"]} : gmap string string)
    !! "x-forwarded-for" = Some " 203.0.113.7 , 10.0.0.1"
  ∧ trim (splitFirst " 203.0.113.7 , 10.0.0.1") ≠ ""
  ∧ clientIPOf {["x-forwarded-for" := " 203.0.113.7 , 10.0.0.1"]}
    = trim (splitFirst " 203.0.113.7 , 10.0.0.1").
Proof.
  assert (H1 : ({["x-forwarded-for" := " 203.0.113.7 , 10.0.0.1"]} : gmap string string)
                 !! "x-forwarded-for" = Some " 203.0.113.7 , 10.0.0.1") by reflexivity.
  assert (H2 : trim (splitFirst " 203.0.113.7 , 10.0.0.1") ≠ "") by discriminate.
  split; [exact H1|]. split; [exact H2|].
  exact (proj1 (proj1 (proj2 (clientIPOf_key _)) _ H1 H2)).
Defined.

(** ** Decoding the endpoint *)

Lemma uriTokens_plain (s : string) :
  "%"%char ∉ chars s → uriTokens s = Some (Literal <$> chars s).
Proof.
  induction s as [|c s IH]; cbn [uriTokens chars]; [done|].
  rewrite not_elem_of_cons. intros [Hc Hs].
  destruct (Ascii.eqb c "%") eqn:Heq; [apply Ascii.eqb_eq in Heq; congruence|].
  by rewrite IH.
Qed.

Lemma decodeTokens_literals (s : string) : decodeTokens (Literal <$> chars s) = Some s.
Proof.
  induction s as [|c s IH]; [done|].
  cbn [chars fmap list_fmap decodeTokens]. change (list_fmap _ _ Literal (chars s))
    with (Literal <$> chars s). by rewrite IH.
Qed.

Lemma uriTokens_trailing_percent (n : nat) (p : string) :
  (String.length p ≤ n)%nat → uriTokens (p +:+ "%") = None.
Proof.
  revert p. induction n as [|n IH]; intros p Hlen.
  - destruct p; [reflexivity|cbn in Hlen; lia].
  - destruct p as [|c p]; [reflexivity|]. cbn in Hlen.
    rewrite append_cons. cbn [uriTokens].
    destruct (Ascii.eqb c "%").
    + destruct p as [|h1 [|h2 p]]; cbn in Hlen.
      * reflexivity.
      * rewrite append_cons. change ("" +:+ "%") with "%".
        destruct (hexDigit h1); reflexivity.
      * rewrite !append_cons. rewrite IH by lia.
        destruct (hexDigit h1), (hexDigit h2); reflexivity.
    + rewrite IH by lia. reflexivity.
Qed.

(** X21. Decoding is the identity on an endpoint without a percent sign,
    so such a request is never rejected for its encoding; an endpoint that
    ends in a percent sign never decodes, so a request with it that gets as
    far as the validator is answered 400 [Invalid endpoint encoding]. *)
Theorem decodeURIComponent_edges (endpoint : string) :
  ("%"%char ∉ chars endpoint →
   decodeURIComponent endpoint = Some endpoint
   ∧ ∀ req env s, query_endpoint req = QString endpoint →
       ¬ invalidEncoding (response (handler req env s)))
  ∧ decodeURIComponent (endpoint +:+ "%") = None
  ∧ (∀ req env s apiKey,
       reachesValidator req env s (endpoint +:+ "%") apiKey →
       invalidEncoding (response (handler req env s))).
Proof.
  assert (Hfail : decodeURIComponent (endpoint +:+ "%") = None).
  { unfold decodeURIComponent.
    by rewrite (uriTokens_trailing_percent (String.length endpoint)). }
  split; [|split; [exact Hfail|]].
  - intros Hplain.
    assert (Hdec : decodeURIComponent endpoint = Some endpoint).
    { unfold decodeURIComponent. rewrite (uriTokens_plain _ Hplain). cbn.
      apply decodeTokens_literals. }
    split; [exact Hdec|]. intros req env s Hq [Hst Hbody].
    destruct (handler_guards req env s)
      as [H|[H|[[_ H]|[H|[H|(endpoint' & apiKey & Hv)]]]]];
      try (rewrite H in Hbody; discriminate).
    assert (endpoint' = endpoint) as ->.
    { destruct Hv as (_ & _ & Hq' & _). congruence. }
    revert Hst Hbody. rewrite (handler_reachesValidator _ _ _ _ _ Hv), Hdec.
    destruct (isAllowed endpoint); [|discriminate].
    destruct (cacheHit _ _ _); [discriminate|].
    unfold proxyUpstream. destruct (fetch env _ _) as [up|]; [|discriminate].
    destruct (ok up); cbn [negb].
    + destruct (up_json up); discriminate.
    + destruct (up_text up); [|discriminate]. intros _. discriminate.
  - intros req env s apiKey Hv.
    rewrite (handler_reachesValidator _ _ _ _ _ Hv), Hfail. by split.
Qed.

Lemma decodeURIComponent_edges_witness :
  ("%"%char ∉ chars "/data/obs/US-MA/recent")
  ∧ decodeURIComponent "/data/obs/US-MA/recent" = Some "/data/obs/US-MA/recent".
Proof.
  assert (H : "%"%char ∉ chars "/data/obs/US-MA/recent").
  { cbn [chars]. rewrite !not_elem_of_cons. repeat (split; [discriminate|]).
    apply not_elem_of_nil. }
  split; [exact H|].
  exact (proj1 (proj1 (decodeURIComponent_edges "/data/obs/US-MA/recent") H)).
Defined.

(** ** The rate limiter inside the handler *)

(** The rate-limit map a GET leaves: the counted map, swept or not. *)
Lemma handler_rateLimits_get req env s :
  method req = "GET" →
  rateLimits (store (handler req env s)) = rateLimits (counted req env s)
  ∨ rateLimits (store (handler req env s))
    = cleanupRateLimits (now_cleanupRateLimits env) (rateLimits (counted req env s)).
Proof.
  intros Hm. unfold counted, clientKey. cbn [rateLimits].
  handler_paths; try (rewrite Hm in Hopt; discriminate);
    try (rewrite Hm in Hget; discriminate);
    cbn [reply store rateLimits snd]; try (by left).
  destruct (sweepDue env); cbn [rateLimits]; [by right|by left].
Qed.

(** A GET of a client whose window is running, with [k] requests counted:
    it is the [(k+1)]-th, answered 429 by the limiter exactly when
    [k + 1 > 100], and the record survives with count [k + 1]. *)
Lemma handler_in_running_window req env s k t1 :
  inWindow (clientKey req) t1 (req, env) →
  rateLimits s !! clientKey req
    = Some {| count := k; resetTime := t1 + windowMs RATE_LIMIT |} →
  rateLimits (store (handler req env s)) !! clientKey req
    = Some {| count := k + 1; resetTime := t1 + windowMs RATE_LIMIT |}
  ∧ allowed (rateCheckOf req env s) = (k + 1 <=? maxRequests RATE_LIMIT).
Proof.
  intros (Hm & _ & Hnow & Hsweep) Hrec. cbn [fst snd] in *.
  assert (Hcounted : rateLimits (counted req env s) !! clientKey req
            = Some {| count := k + 1; resetTime := t1 + windowMs RATE_LIMIT |}
          ∧ allowed (rateCheckOf req env s) = (k + 1 <=? maxRequests RATE_LIMIT)).
  { unfold counted, rateCheckOf. cbn [rateLimits].
    rewrite (checkRateLimit_in_window RATE_LIMIT _ _ _ _ Hrec) by exact Hnow.
    cbn [fst snd allowed count resetTime]. by rewrite lookup_insert_eq. }
  destruct Hcounted as [Hc Ha]. split; [|exact Ha].
  destruct (handler_rateLimits_get req env s Hm) as [-> | ->]; [exact Hc|].
  apply cleanupRateLimits_keeps; [exact Hc|]. cbn [resetTime]. lia.
Qed.

(** The two ways a GET can come out, told apart by the limiter's answer. *)
Lemma handler_get_limited req env s :
  method req = "GET" →
  (allowed (rateCheckOf req env s) = false →
   (∃ retryAfter, rateLimited (response (handler req env s)) retryAfter)
   ∧ upstreamCalls (handler req env s) = [])
  ∧ (allowed (rateCheckOf req env s) = true →
     ∀ retryAfter, ¬ rateLimited (response (handler req env s)) retryAfter).
Proof.
  intros Hm. unfold rateCheckOf, clientKey.
  handler_paths; try (rewrite Hm in Hopt; discriminate);
    try (rewrite Hm in Hget; discriminate);
    cbn [fst reply response upstreamCalls proxyError].
  all: split; [intros Hrej|intros Hacc retryAfter [Hst Hb]];
    try congruence; try discriminate Hst; try discriminate Hb.
  all: split; [eexists; by split|reflexivity].
Qed.

Lemma serveAll_running who t1 requests :
  ∀ s k,
    Forall (inWindow who t1) requests →
    rateLimits s !! who = Some {| count := k; resetTime := t1 + windowMs RATE_LIMIT |} →
    ∀ i out, serveAll requests s !! i = Some out →
      (k + Z.of_nat i + 1 ≤ maxRequests RATE_LIMIT →
       ∀ retryAfter, ¬ rateLimited (response out) retryAfter)
      ∧ (maxRequests RATE_LIMIT < k + Z.of_nat i + 1 →
         (∃ retryAfter, rateLimited (response out) retryAfter)
         ∧ upstreamCalls out = []).
Proof.
  induction requests as [|[req env] requests IH]; intros s k Hall Hrec i out Hi;
    [by destruct i|].
  apply Forall_cons in Hall as [Hin Hall].
  pose proof Hin as (Hm & Hwho & _). cbn [fst snd] in Hm, Hwho. subst who.
  destruct (handler_in_running_window req env s k t1 Hin Hrec) as [Hnext Hallowed].
  destruct (handler_get_limited req env s Hm) as [Hrej Hok].
  destruct i as [|i]; cbn [serveAll] in Hi.
  - injection Hi as <-. split.
    + intros Hle. apply Hok. rewrite Hallowed. apply Z.leb_le. lia.
    + intros Hlt. apply Hrej. rewrite Hallowed. apply Z.leb_gt. lia.
  - cbn in Hi. destruct (IH _ (k + 1) Hall Hnext i out Hi) as [H1 H2].
    split; intros ?; [apply H1|apply H2]; lia.
Qed.

(** X22. A client's requests within one window: starting from a state in
    which the client opens a window at [t1], its GETs that follow one
    another with rate checks inside the window get past the limiter for
    the first 100 and are answered 429 by it from the 101st on, without an
    upstream call; so at most 100 upstream calls per client and window. *)
Theorem at_most_100_per_window who t1 req env rest s :
  freshAt (rateLimits s) who t1 →
  now_checkRateLimit env = t1 →
  Forall (inWindow who t1) ((req, env) :: rest) →
  ∀ i out, serveAll ((req, env) :: rest) s !! i = Some out →
    ((i < 100)%nat → ∀ retryAfter, ¬ rateLimited (response out) retryAfter)
    ∧ ((100 ≤ i)%nat →
       (∃ retryAfter, rateLimited (response out) retryAfter)
       ∧ upstreamCalls out = []).
Proof.
  intros Hfresh Ht1 Hall i out Hi.
  apply Forall_cons in Hall as [Hin Hall].
  pose proof Hin as (Hm & Hwho & _ & Hsweep). cbn [fst snd] in Hm, Hwho, Hsweep. subst who.
  assert (Hcounted : rateLimits (counted req env s) !! clientKey req
            = Some {| count := 1; resetTime := t1 + windowMs RATE_LIMIT |}
          ∧ allowed (rateCheckOf req env s) = true).
  { unfold counted, rateCheckOf. cbn [rateLimits]. rewrite Ht1.
    rewrite (checkRateLimit_fresh RATE_LIMIT _ _ _ Hfresh).
    cbn [fst snd allowed]. by rewrite lookup_insert_eq. }
  destruct Hcounted as [Hc Ha].
  assert (Hnext : rateLimits (store (handler req env s)) !! clientKey req
            = Some {| count := 1; resetTime := t1 + windowMs RATE_LIMIT |}).
  { destruct (handler_rateLimits_get req env s Hm) as [-> | ->]; [exact Hc|].
    apply cleanupRateLimits_keeps; [exact Hc|]. cbn [resetTime]. lia. }
  destruct i as [|i]; cbn [serveAll] in Hi.
  - injection Hi as <-. split; [|lia]. intros _.
    by apply (proj2 (handler_get_limited req env s Hm)).
  - cbn in Hi.
    destruct (serveAll_running _ t1 rest _ 1 Hall Hnext i out Hi) as [H1 H2].
    change (maxRequests RATE_LIMIT) with 100 in H1, H2.
    split; intros ?; [apply H1|apply H2]; lia.
Qed.

Lemma at_most_100_per_window_witness :
  freshAt (rateLimits emptyStore) "203.0.113.7" 0
  ∧ Forall (inWindow "203.0.113.7" 0)
      (replicate 101 (getFrom "203.0.113.7" "/data/obs/US-MA/recent",
                      atTime 0 (upstreamOk sightings)))
  ∧ ∀ out,
      serveAll (replicate 101 (getFrom "203.0.113.7" "/data/obs/US-MA/recent",
                               atTime 0 (upstreamOk sightings))) emptyStore !! 100%nat
        = Some out →
      upstreamCalls out = [].
Proof.
  assert (H1 : freshAt (rateLimits emptyStore) "203.0.113.7" 0) by exact I.
  assert (H2 : Forall (inWindow "203.0.113.7" 0)
      (replicate 101 (getFrom "203.0.113.7" "/data/obs/US-MA/recent",
                      atTime 0 (upstreamOk sightings)))).
  { apply Forall_replicate. repeat split; try reflexivity; cbn; lia. }
  split; [exact H1|]. split; [exact H2|].
  intros out Hi.
  apply (at_most_100_per_window "203.0.113.7" 0
           (getFrom "203.0.113.7" "/data/obs/US-MA/recent")
           (atTime 0 (upstreamOk sightings))
           (replicate 100 (getFrom "203.0.113.7" "/data/obs/US-MA/recent",
                           atTime 0 (upstreamOk sightings)))
           emptyStore H1 eq_refl H2 100%nat out Hi).
  lia.
Defined.

(** ** What one request can add to the state *)

(** The state an invocation leaves, by shape. *)
Lemma handler_store_shape req env s :
  store (handler req env s) = s
  ∨ store (handler req env s) = counted req env s
  ∨ ∃ decoded payload,
      let cache1 :=
        <[getCacheKey decoded :=
            {| data := payload; expiry := now_cacheStore env + getCacheTTL decoded |}]>
          (cache s) in
      store (handler req env s)
        = {| cache := cache1; rateLimits := rateLimits (counted req env s) |}
      ∨ store (handler req env s)
        = {| cache := cleanupCache (now_cleanupCache env) cache1;
             rateLimits := cleanupRateLimits (now_cleanupRateLimits env)
                             (rateLimits (counted req env s)) |}.
Proof.
  unfold counted, clientKey.
  handler_paths; cbn [reply store snd]; try (by left); try (by right; left).
  right. right. exists decoded, payload. cbn zeta.
  destruct (sweepDue env); [by right|by left].
Qed.

(** X23. One request adds at most one record to the rate-limit map, the
    record of its own client key, and at most one entry to the cache;
    every other key of either map was there before. *)
Theorem handler_growth req env s :
  (size (rateLimits (store (handler req env s))) ≤ S (size (rateLimits s)))%nat
  ∧ (size (cache (store (handler req env s))) ≤ S (size (cache s)))%nat
  ∧ (∀ ip, is_Some (rateLimits (store (handler req env s)) !! ip) →
       ip = clientKey req ∨ is_Some (rateLimits s !! ip))
  ∧ (∀ k, is_Some (cache (store (handler req env s)) !! k) →
       is_Some (cache s !! k)
       ∨ ∃ decoded apiKey, reachesCache req env s decoded apiKey ∧ k = getCacheKey decoded).
Proof.
  assert (Hins : ∀ {A} (m : gmap string A) i x, (size (<[i:=x]> m) ≤ S (size m))%nat).
  { intros A m i x. rewrite map_size_insert. destruct (m !! i); cbn; lia. }
  assert (Hcounted : (size (rateLimits (counted req env s)) ≤ S (size (rateLimits s)))%nat).
  { unfold counted, checkRateLimit. cbn [rateLimits snd]. apply Hins. }
  split; [|split; [|split]].
  - destruct (handler_store_shape req env s) as [->|[->|(d & p & [-> | ->])]];
      cbn zeta; cbn [rateLimits]; try lia; try exact Hcounted.
    etransitivity; [|exact Hcounted].
    apply map_subseteq_size, map_filter_subseteq.
  - destruct (handler_store_shape req env s) as [->|[->|(d & p & [-> | ->])]];
      cbn zeta; cbn [cache counted]; try lia; try apply Hins.
    etransitivity; [|apply Hins].
    apply map_subseteq_size, map_filter_subseteq.
  - intros ip [record Hrec].
    apply handler_rateLimits in Hrec as [Hold|Hnew]; [right; eauto|].
    destruct (decide (ip = clientKey req)) as [->|Hne]; [by left|right].
    revert Hnew. unfold counted. cbn [rateLimits].
    rewrite checkRateLimit_other by done. eauto.
  - intros k [entry Hk].
    destruct (handler_cache_lookup req env s k)
      as [H|[(decoded & apiKey & payload & Hreach & -> & _)|(_ & Hnone & _)]].
    + left. rewrite <- H. eauto.
    + right. eauto.
    + congruence.
Qed.

Lemma handler_growth_witness :
  is_Some (rateLimits (store (handler (getFrom "203.0.113.7" "/unsafe/path")
                                (atTime 0 (upstreamOk sightings)) emptyStore))
             !! "203.0.113.7")
  ∧ ("203.0.113.7" = clientKey (getFrom "203.0.113.7" "/unsafe/path")
     ∨ is_Some (rateLimits emptyStore !! "203.0.113.7")).
Proof.
  assert (H : is_Some (rateLimits (store (handler (getFrom "203.0.113.7" "/unsafe/path")
                         (atTime 0 (upstreamOk sightings)) emptyStore)) !! "203.0.113.7")).
  { exists {| count := 1; resetTime := 60000 |}. vm_compute. reflexivity. }
  split; [exact H|].
  exact (proj1 (proj2 (proj2 (handler_growth (getFrom "203.0.113.7" "/unsafe/path")
                                (atTime 0 (upstreamOk sightings)) emptyStore)))
           "203.0.113.7" H).
Defined.

(** ** A fresh fetch *)

(** X24. After a successful fetch the response's [Cache-Control] header
    announces [s-maxage] equal to the TTL in seconds and twice that for
    [stale-while-revalidate]; the entry found under the request's key holds
    the payload and expires exactly that TTL after the clock reading of the
    write, hence between five minutes and twenty-four hours later; it is
    found there unless the sweep ran with a reading past that expiry. *)
Theorem fresh_fetch_lifetime req env s decoded apiKey up payload :
  upstreamCalls (handler req env s) = [(upstreamUrl decoded, apiKey)] →
  fetch env (upstreamUrl decoded) apiKey = Returned up →
  ok up = true →
  up_json up = Returned payload →
  headers (response (handler req env s)) !! "Cache-Control"
    = Some (JStr ("s-maxage=" +:+ toString (getCacheTTL decoded / 1000) +:+
                  ", stale-while-revalidate=" +:+
                  toString (getCacheTTL decoded / 1000 * 2)))
  ∧ 1000 * (getCacheTTL decoded / 1000) = getCacheTTL decoded
  ∧ (∀ entry, cache (store (handler req env s)) !! getCacheKey decoded = Some entry →
       data entry = payload
       ∧ expiry entry = now_cacheStore env + getCacheTTL decoded
       ∧ now_cacheStore env + 300000 ≤ expiry entry ≤ now_cacheStore env + 86400000)
  ∧ ((sweepDue env = true →
      now_cleanupCache env ≤ now_cacheStore env + getCacheTTL decoded) →
     is_Some (cache (store (handler req env s)) !! getCacheKey decoded)).
Proof.
  intros Hcalls Hfetch Hok Hjson.
  destruct (handler_calls_inv req env s) as (decoded0 & key & Hreach & Hmiss & Heq);
    [by rewrite Hcalls|].
  rewrite Heq, proxyUpstream_calls in Hcalls.
  injection Hcalls as Hd ->. change (decoded0 = decoded) in Hd. subst decoded0.
  rewrite Heq.
  destruct (proxyUpstream_success env (baseHeaders req env s) decoded
              (getCacheKey decoded) apiKey (counted req env s) up payload Hfetch Hok Hjson)
    as (_ & _ & _ & Hcache).
  assert (Hrange : 300000 ≤ getCacheTTL decoded ≤ 86400000
                   ∧ getCacheTTL decoded mod 1000 = 0).
  { unfold getCacheTTL. cbn [first_prefix_match CACHE_TTL].
    repeat (destruct (startsWith decoded _); [vm_compute; repeat split; discriminate|]).
    vm_compute. repeat split; discriminate. }
  destruct Hrange as [Hrange Hmod].
  split; [|split; [|split]].
  - unfold proxyUpstream. fold (upstreamUrl decoded). rewrite Hfetch, Hok, Hjson.
    cbn [negb response headers]. rewrite lookup_insert_ne by discriminate.
    apply lookup_insert_eq.
  - pose proof (Z.div_mod (getCacheTTL decoded) 1000 ltac:(lia)). lia.
  - intros entry. rewrite Hcache.
    destruct (sweepDue env).
    + rewrite cleanupCache_lookup, lookup_insert_eq.
      destruct (_ <? _); [discriminate|]. intros [= <-]. cbn. repeat split; lia.
    + rewrite lookup_insert_eq. intros [= <-]. cbn. repeat split; lia.
  - intros Hsweep. rewrite Hcache.
    destruct (sweepDue env).
    + rewrite cleanupCache_lookup, lookup_insert_eq. cbn [expiry].
      specialize (Hsweep eq_refl). apply Z.ltb_ge in Hsweep. rewrite Hsweep. eauto.
    + rewrite lookup_insert_eq. eauto.
Qed.

Lemma fresh_fetch_lifetime_witness :
  upstreamCalls (handler (getFrom "203.0.113.7" "/ref/taxonomy/ebird")
                   (sweepingAt 0 (upstreamOk sightings)) emptyStore)
    = [(upstreamUrl "/ref/taxonomy/ebird", "test-token")]
  ∧ headers (response (handler (getFrom "203.0.113.7" "/ref/taxonomy/ebird")
                         (sweepingAt 0 (upstreamOk sightings)) emptyStore))
      !! "Cache-Control"
    = Some (JStr ("s-maxage=" +:+ toString (getCacheTTL "/ref/taxonomy/ebird" / 1000) +:+
                  ", stale-while-revalidate=" +:+
                  toString (getCacheTTL "/ref/taxonomy/ebird" / 1000 * 2))).
Proof.
  assert (H : upstreamCalls (handler (getFrom "203.0.113.7" "/ref/taxonomy/ebird")
                (sweepingAt 0 (upstreamOk sightings)) emptyStore)
              = [(upstreamUrl "/ref/taxonomy/ebird", "test-token")])
    by (vm_compute; reflexivity).
  split; [exact H|].
  exact (proj1 (fresh_fetch_lifetime _ _ _ _ _ _ _ H eq_refl eq_refl eq_refl)).
Defined.

(** ** The plain proxy *)

(** X25. The plain proxy of [ebird.js] issues at most one upstream call,
    and only for a GET with a configured credential whose decoded endpoint
    starts with an allowed prefix.  An upstream error answer is forwarded
    with its status and its body text; a success answer is returned with
    status 200 and a five-minute [Cache-Control]. *)
Theorem basic_proxy_outcomes req env :
  ((Basic.handler req env).2 = []
   ∨ ∃ prefix rest apiKey,
       (Basic.handler req env).2
       = [("https://api.ebird.org/v2" +:+ prefix +:+ rest, apiKey)]
       ∧ prefix ∈ Basic.allowedPaths
       ∧ decodeURIComponent (Basic.queryToString (query_endpoint req))
         = Some (prefix +:+ rest)
       ∧ EBIRD_API_KEY env = Some apiKey ∧ apiKey ≠ ""
       ∧ method req = "GET")
  ∧ (∀ decoded apiKey up,
       (Basic.handler req env).2 = [(upstreamUrl decoded, apiKey)] →
       fetch env (upstreamUrl decoded) apiKey = Returned up →
       (∀ errorText, ok up = false → up_text up = Returned errorText →
          status (Basic.handler req env).1 = up_status up
          ∧ body (Basic.handler req env).1
            = Some (JObj [("error", JStr ("eBird API error: " +:+ toString (up_status up)));
                          ("details", JStr errorText)]))
       ∧ (∀ payload, ok up = true → up_json up = Returned payload →
            status (Basic.handler req env).1 = 200
            ∧ body (Basic.handler req env).1 = Some payload
            ∧ headers (Basic.handler req env).1 !! "Cache-Control"
              = Some (JStr "s-maxage=300, stale-while-revalidate"))).
Proof.
  unfold Basic.handler.
  destruct (String.eqb (method req) "OPTIONS"); [split; [by left|discriminate]|].
  destruct (String.eqb (method req) "GET") eqn:Hget; cbn [negb];
    [|split; [by left|discriminate]].
  apply String.eqb_eq in Hget.
  destruct (Basic.queryTruthy (query_endpoint req)); cbn [negb];
    [|split; [by left|discriminate]].
  destruct (EBIRD_API_KEY env) as [[|c k]|] eqn:Hkey;
    [split; [by left|discriminate]| |split; [by left|discriminate]].
  destruct (decodeURIComponent _) as [decoded|] eqn:Hdec;
    [|split; [by left|discriminate]].
  destruct (existsb (startsWith decoded) Basic.allowedPaths) eqn:Hal; cbn [negb];
    [|split; [by left|discriminate]].
  fold (upstreamUrl decoded).
  assert (Hcall : ∃ prefix rest,
            prefix ∈ Basic.allowedPaths ∧ decoded = prefix +:+ rest).
  { apply existsb_exists in Hal as (prefix & Hin%list_elem_of_In & [rest ->]%startsWith_app).
    eauto. }
  destruct Hcall as (prefix & rest & Hin & ->).
  split.
  - right. exists prefix, rest, (String c k).
    assert (Hcalls : ∀ (o : Response * list (string * string)),
              o.2 = [(upstreamUrl (prefix +:+ rest), String c k)] →
              o.2 = [("https://api.ebird.org/v2" +:+ prefix +:+ rest, String c k)]
              ∧ prefix ∈ Basic.allowedPaths
              ∧ Some (prefix +:+ rest) = Some (prefix +:+ rest)
              ∧ Some (String c k) = Some (String c k) ∧ String c k ≠ ""
              ∧ method req = "GET") by (intros o ->; done).
    apply Hcalls.
    destruct (fetch env _ _) as [up|]; [|reflexivity].
    destruct (ok up); cbn [negb];
      [destruct (up_json up) | destruct (up_text up)]; reflexivity.
  - intros decoded' apiKey up Hcalls Hfetch.
    assert (decoded' = prefix +:+ rest ∧ apiKey = String c k) as [-> ->].
    { revert Hcalls. destruct (fetch env (upstreamUrl (prefix +:+ rest)) _) as [up'|];
        [destruct (ok up'); cbn [negb];
         [destruct (up_json up') | destruct (up_text up')]|];
        cbn [snd]; intros [= Hd ->];
        change (prefix +:+ rest = decoded') in Hd; by subst. }
    rewrite Hfetch. split.
    + intros errorText -> ->. by split.
    + intros payload -> ->. cbn [negb fst status body headers].
      split; [done|]. split; [done|]. apply lookup_insert_eq.
Qed.

Lemma basic_proxy_outcomes_witness :
  (Basic.handler (getFrom "203.0.113.7" "/data/obs/XX/recent")
     (atTime 0 (upstreamFails 404 "No such region"))).2
    = [(upstreamUrl "/data/obs/XX/recent", "test-token")]
  ∧ status (Basic.handler (getFrom "203.0.113.7" "/data/obs/XX/recent")
              (atTime 0 (upstreamFails 404 "No such region"))).1 = 404.
Proof.
  assert (H : (Basic.handler (getFrom "203.0.113.7" "/data/obs/XX/recent")
                 (atTime 0 (upstreamFails 404 "No such region"))).2
              = [(upstreamUrl "/data/obs/XX/recent", "test-token")]) by reflexivity.
  split; [exact H|].
  exact (proj1 (proj1 (proj2 (basic_proxy_outcomes _ _) _ _ _ H eq_refl)
                  "No such region" eq_refl eq_refl)).
Defined.
